(** * NLU-Proyect-POS: corpus ingestion, tag mapping, encoding and padding

  A shallow embedding of the Python sources
  - [conllu_processor.py]  (class [CoNLLUProcessor]),
  - [UDReader.py]          (class [ReadUDTreebank]),
  - [Mapper.py]            (class [Mapper]),
  - [MyTagger.py]          (method [MyTagger.padding]),
  - [tokenization_and_mapping.py] (tokenizer, tag dictionaries, padding, demo),
  together with the parts of the Python runtime and of Keras that these
  sources call ([str.strip], [str.split], [str.lower], [Tokenizer],
  [pad_sequences]).

  Python [int] is [Z]; lengths and matrix dimensions are [nat]; [str] is
  [string] (the embedding covers ASCII text: bytes above 127 are left
  untouched by [lower] and are never white space); a method that mutates
  [self] is a function from the object's state to its new state. *)

From Stdlib Require Import ZArith Ascii Sorted.
From Stdlib Require String OrderedTypeEx.
From stdpp Require Import gmap strings list fin_maps.

Local Open Scope Z_scope.

(** ** Python string primitives *)

Module PyStr.

(** [str.isspace] on one ASCII character: TAB, LF, VT, FF, CR, FS, GS, RS,
    US and the space. *)
Definition isspace (c : ascii) : bool :=
  let n := nat_of_ascii c in
  ((9 <=? n)%nat && (n <=? 13)%nat) || ((28 <=? n)%nat && (n <=? 32)%nat).

Fixpoint lstrip (s : string) : string :=
  match s with
  | EmptyString => EmptyString
  | String c s' => if isspace c then lstrip s' else s
  end.

Fixpoint rstrip (s : string) : string :=
  match s with
  | EmptyString => EmptyString
  | String c s' =>
      match rstrip s' with
      | EmptyString => if isspace c then EmptyString else String c EmptyString
      | r => String c r
      end
  end.

(** [s.strip()] *)
Definition strip (s : string) : string := rstrip (lstrip s).

(** [s.split(sep)] for a one-character separator: never the empty list,
    empty fields are kept. *)
Fixpoint split (sep : ascii) (s : string) : list string :=
  match s with
  | EmptyString => [EmptyString]
  | String c s' =>
      if Ascii.eqb c sep then EmptyString :: split sep s'
      else match split sep s' with
           | w :: ws => String c w :: ws
           | [] => [String c EmptyString]
           end
  end.

(** [c in s] for a one-character [c] *)
Fixpoint contains (c : ascii) (s : string) : bool :=
  match s with
  | EmptyString => false
  | String d s' => Ascii.eqb d c || contains c s'
  end.

(** [s.startswith(c)] for a one-character [c] *)
Definition startswith (c : ascii) (s : string) : bool :=
  match s with
  | String d _ => Ascii.eqb d c
  | EmptyString => false
  end.

(** truthiness of a string: [not s] is [negb (truthy s)] *)
Definition truthy (s : string) : bool :=
  match s with EmptyString => false | _ => true end.

Definition isupper (c : ascii) : bool :=
  let n := nat_of_ascii c in (65 <=? n)%nat && (n <=? 90)%nat.

Definition lower_char (c : ascii) : ascii :=
  if isupper c then ascii_of_nat (nat_of_ascii c + 32) else c.

(** [s.lower()] *)
Fixpoint lower (s : string) : string :=
  match s with
  | EmptyString => EmptyString
  | String c s' => String (lower_char c) (lower s')
  end.

(** [" ".join(l)] *)
Fixpoint join (sep : string) (l : list string) : string :=
  match l with
  | [] => EmptyString
  | [w] => w
  | w :: ws => w +:+ sep +:+ join sep ws
  end.

(** [file.readlines()] on a text file opened with universal newlines:
    CR LF and a lone CR both end a line, every line keeps its end as LF,
    and a last line without end is still a line. *)
Fixpoint readlines (s : string) : list string :=
  match s with
  | EmptyString => []
  | String c s' =>
      if Ascii.eqb c "010" then String "010" EmptyString :: readlines s'
      else if Ascii.eqb c "013" then
        match s' with
        | String d s'' =>
            if Ascii.eqb d "010"
            then String "010" EmptyString :: readlines s''
            else String "010" EmptyString :: readlines s'
        | EmptyString => [String "010" EmptyString]
        end
      else match readlines s' with
           | l :: ls => String c l :: ls
           | [] => [String c EmptyString]
           end
  end.

End PyStr.

(** ** conllu_processor.py *)

Module CoNLLU.

Import PyStr.

(** a kept token: [(word_form, upos_tag)] *)
Definition token : Type := string * string.

(** The fields that [__init__] creates. *)
Record CoNLLUProcessor : Type := mkProcessor {
  sentences : list (list token);
  raw_sentences : list (list string);
  removed_multiword_count : Z;
  removed_empty_nodes : Z;
  removed_long_sentences : Z;
  total_sentences_processed : Z;
  max_sentence_length : Z
}.

(** [CoNLLUProcessor()] *)
Definition init : CoNLLUProcessor :=
  {| sentences := [];
     raw_sentences := [];
     removed_multiword_count := 0;
     removed_empty_nodes := 0;
     removed_long_sentences := 0;
     total_sentences_processed := 0;
     max_sentence_length := 128 |}.

Definition TAB : ascii := "009".

(** ['-' in token_id and not token_id.startswith('#')] *)
Definition _is_multiword_token (token_id : string) : bool :=
  contains "-" token_id && negb (startswith "#" token_id).

(** ['.' in token_id] *)
Definition _is_empty_node (token_id : string) : bool :=
  contains "." token_id.

Definition bump_multiword (p : CoNLLUProcessor) : CoNLLUProcessor :=
  {| sentences := sentences p;
     raw_sentences := raw_sentences p;
     removed_multiword_count := removed_multiword_count p + 1;
     removed_empty_nodes := removed_empty_nodes p;
     removed_long_sentences := removed_long_sentences p;
     total_sentences_processed := total_sentences_processed p;
     max_sentence_length := max_sentence_length p |}.

Definition bump_empty_nodes (p : CoNLLUProcessor) : CoNLLUProcessor :=
  {| sentences := sentences p;
     raw_sentences := raw_sentences p;
     removed_multiword_count := removed_multiword_count p;
     removed_empty_nodes := removed_empty_nodes p + 1;
     removed_long_sentences := removed_long_sentences p;
     total_sentences_processed := total_sentences_processed p;
     max_sentence_length := max_sentence_length p |}.

Definition bump_long (p : CoNLLUProcessor) : CoNLLUProcessor :=
  {| sentences := sentences p;
     raw_sentences := raw_sentences p;
     removed_multiword_count := removed_multiword_count p;
     removed_empty_nodes := removed_empty_nodes p;
     removed_long_sentences := removed_long_sentences p + 1;
     total_sentences_processed := total_sentences_processed p;
     max_sentence_length := max_sentence_length p |}.

Definition bump_total (p : CoNLLUProcessor) : CoNLLUProcessor :=
  {| sentences := sentences p;
     raw_sentences := raw_sentences p;
     removed_multiword_count := removed_multiword_count p;
     removed_empty_nodes := removed_empty_nodes p;
     removed_long_sentences := removed_long_sentences p;
     total_sentences_processed := total_sentences_processed p + 1;
     max_sentence_length := max_sentence_length p |}.

Definition keep_sentence (sentence : list token) (raw_sentence : list string)
    (p : CoNLLUProcessor) : CoNLLUProcessor :=
  {| sentences := sentences p ++ [sentence];
     raw_sentences := raw_sentences p ++ [raw_sentence];
     removed_multiword_count := removed_multiword_count p;
     removed_empty_nodes := removed_empty_nodes p;
     removed_long_sentences := removed_long_sentences p;
     total_sentences_processed := total_sentences_processed p;
     max_sentence_length := max_sentence_length p |}.

Definition set_max_sentence_length (m : Z) (p : CoNLLUProcessor) : CoNLLUProcessor :=
  {| sentences := sentences p;
     raw_sentences := raw_sentences p;
     removed_multiword_count := removed_multiword_count p;
     removed_empty_nodes := removed_empty_nodes p;
     removed_long_sentences := removed_long_sentences p;
     total_sentences_processed := total_sentences_processed p;
     max_sentence_length := m |}.

(** [_parse_token_line(self, line)]: the returned pair or [None], and the
    state of [self] afterwards. *)
Definition _parse_token_line (p : CoNLLUProcessor) (line : string)
    : option token * CoNLLUProcessor :=
  let parts := split TAB line in
  if negb (length parts =? 10)%nat then (None, p)
  else
    let token_id := nth 0 parts EmptyString in
    let word_form := nth 1 parts EmptyString in
    let upos_tag := nth 3 parts EmptyString in
    if _is_multiword_token token_id then (None, bump_multiword p)
    else if _is_empty_node token_id then (None, bump_empty_nodes p)
    else if negb (truthy word_form) || negb (truthy upos_tag)
              || String.eqb upos_tag "_"
         then (None, p)
         else (Some (word_form, upos_tag), p).

(** [_process_completed_sentence(self, sentence, raw_sentence)] *)
Definition _process_completed_sentence (p : CoNLLUProcessor)
    (sentence : list token) (raw_sentence : list string) : CoNLLUProcessor :=
  let p := bump_total p in
  if max_sentence_length p <? Z.of_nat (length sentence) then bump_long p
  else if 0 <? Z.of_nat (length sentence)
       then keep_sentence sentence raw_sentence p
       else p.

(** The local variables of the loop of [_parse_conllu_content], next to
    [self]. *)
Record scan : Type := mkScan {
  self : CoNLLUProcessor;
  current_sentence : list token;
  current_raw_sentence : list string
}.

(** One turn of the [for] loop of [_parse_conllu_content].  On a string
    [_parse_token_line] raises nothing, so the [except] branch of the loop
    is never taken. *)
Definition scan_line (s : scan) (line : string) : scan :=
  let line := strip line in
  if negb (truthy line) then
    match current_sentence s with
    | [] => s
    | _ :: _ =>
        {| self := _process_completed_sentence (self s) (current_sentence s)
                     (current_raw_sentence s);
           current_sentence := [];
           current_raw_sentence := [] |}
    end
  else if startswith "#" line then
    {| self := self s;
       current_sentence := current_sentence s;
       current_raw_sentence := current_raw_sentence s ++ [line] |}
  else
    match _parse_token_line (self s) line with
    | (Some token_data, p) =>
        {| self := p;
           current_sentence := current_sentence s ++ [token_data];
           current_raw_sentence := current_raw_sentence s ++ [line] |}
    | (None, p) =>
        {| self := p;
           current_sentence := current_sentence s;
           current_raw_sentence := current_raw_sentence s |}
    end.

(** What follows the loop: the last sentence of a file that does not end
    with an empty line. *)
Definition scan_end (s : scan) : CoNLLUProcessor :=
  match current_sentence s with
  | [] => self s
  | _ :: _ => _process_completed_sentence (self s) (current_sentence s)
                (current_raw_sentence s)
  end.

(** [_parse_conllu_content(self, lines)] *)
Definition _parse_conllu_content (p : CoNLLUProcessor) (lines : list string)
    : CoNLLUProcessor :=
  scan_end (fold_left scan_line lines
              {| self := p; current_sentence := []; current_raw_sentence := [] |}).

(** How a call of [load_conllu_file] ends: it returns, or the
    [FileNotFoundError] of [open] is raised again. *)
Inductive outcome : Type := Loaded | FileNotFoundError.

(** [load_conllu_file(self, filepath, max_sentence_length)], with the
    files that [open] can see as a map from path to text: the limit is
    stored before the file is opened. *)
Definition load_conllu_file (fs : gmap string string) (p : CoNLLUProcessor)
    (filepath : string) (max_len : Z) : outcome * CoNLLUProcessor :=
  let p := set_max_sentence_length max_len p in
  match fs !! filepath with
  | Some text => (Loaded, _parse_conllu_content p (readlines text))
  | None => (FileNotFoundError, p)
  end.


(** ** Vocabulary of the statements below *)

(** [accumulate p d]: the processor [p] after it has also taken in what the
    processor [d] holds; the limit is that of [d]. *)
Definition accumulate (p d : CoNLLUProcessor) : CoNLLUProcessor :=
  {| sentences := sentences p ++ sentences d;
     raw_sentences := raw_sentences p ++ raw_sentences d;
     removed_multiword_count := removed_multiword_count p + removed_multiword_count d;
     removed_empty_nodes := removed_empty_nodes p + removed_empty_nodes d;
     removed_long_sentences := removed_long_sentences p + removed_long_sentences d;
     total_sentences_processed :=
       total_sentences_processed p + total_sentences_processed d;
     max_sentence_length := max_sentence_length d |}.

(** every sentence has between 1 and [m] tokens *)
Definition within (m : Z) (ss : list (list token)) : Prop :=
  Forall (fun s => 1 ≤ Z.of_nat (length s) ≤ m) ss.

(** the loop state of a processor that took in [p] before *)
Definition shift (p : CoNLLUProcessor) (s : scan) : scan :=
  {| self := accumulate p (self s);
     current_sentence := current_sentence s;
     current_raw_sentence := current_raw_sentence s |}.

End CoNLLU.

(** ** Python dictionaries used as finite maps *)

Module PyDict.

(** [dict(pairs)]: a later pair overrides an earlier one with the same key. *)
Definition dict_of_pairs `{Countable K} {V : Type} (l : list (K * V)) : gmap K V :=
  list_to_map (reverse l).

(** [{v: k for k, v in d.items()}].  Wherever the sources build such a
    dictionary the values of [d] are pairwise distinct, so the order in which
    [items()] yields them does not show in the result. *)
Definition dict_invert `{Countable K} `{Countable V} (d : gmap K V) : gmap V K :=
  dict_of_pairs (prod_swap <$> map_to_list d).

(** [dict(zip(keys, range(start, start + len(keys))))] *)
Definition dict_enumerate `{Countable K} (start : Z) (keys : list K) : gmap K Z :=
  dict_of_pairs (zip keys (seqZ start (Z.of_nat (length keys)))).

(** [d.get(k, default)] *)
Definition get `{Countable K} {V : Type} (d : gmap K V) (k : K) (dflt : V) : V :=
  default dflt (d !! k).

End PyDict.

(** ** Mapper.py *)

Module Mapper.

(** the items of the dictionary literal [id_mapping] *)
Definition id_items : list (string * Z) :=
  [("ADJ", 1); ("ADP", 2); ("ADV", 3); ("AUX", 4); ("CCONJ", 5); ("DET", 6);
   ("INTJ", 7); ("NOUN", 8); ("NUM", 9); ("PART", 10); ("PRON", 11);
   ("PROPN", 12); ("PUNCT", 13); ("SCONJ", 14); ("SYM", 15); ("VERB", 16);
   ("X", 17); ("UNK", 18)].

Definition id_mapping : gmap string Z := PyDict.dict_of_pairs id_items.

Definition pos_mapping : gmap Z string :=
  PyDict.dict_of_pairs
    [(1, "ADJ"); (2, "ADP"); (3, "ADV"); (4, "AUX"); (5, "CCONJ"); (6, "DET");
     (7, "INTJ"); (8, "NOUN"); (9, "NUM"); (10, "PART"); (11, "PRON");
     (12, "PROPN"); (13, "PUNCT"); (14, "SCONJ"); (15, "SYM"); (16, "VERB");
     (17, "X"); (18, "UNK")].

(** [map_ids(self, targets)]: [None] is the [KeyError] of [id_mapping[target]]. *)
Definition map_ids (targets : list string) : option (list Z) :=
  mapM (fun target => id_mapping !! target) targets.

(** [mapping(self, targets)] *)
Definition mapping (targets : list (list string)) : option (list (list Z)) :=
  mapM map_ids targets.

(** [map_pos(self, targets)]: [None] is the [KeyError] of [pos_mapping[target]]. *)
Definition map_pos (targets : list Z) : option (list string) :=
  mapM (fun target => pos_mapping !! target) targets.

(** [unmapping(self, targets)] *)
Definition unmapping (targets : list (list Z)) : option (list (list string)) :=
  mapM map_pos targets.

End Mapper.

(** ** UDReader.py *)

Module UDReader.

Import PyStr.

(** What the method reads of a pyconll token: its ID column, [form], [upos]. *)
Record conll_token : Type := mkToken {
  tok_id : string;
  form : string;
  upos : string
}.

(** pyconll: [Token.is_multiword] and [Token.is_empty_node] look for ['-']
    and ['.'] in the ID; a pyconll sentence iterates over all its token
    lines and [__len__] counts them. *)
Definition is_multiword (t : conll_token) : bool := contains "-" (tok_id t).
Definition is_empty_node (t : conll_token) : bool := contains "." (tok_id t).

(** The inner loop of [remove_multi_empty] over one sentence. *)
Definition sentence_tokens_pos (sentence : list conll_token)
    : list string * list string :=
  fold_left
    (fun acc token =>
       if (Z.of_nat (length sentence) <? 128)
       then if negb (is_multiword token || is_empty_node token)
            then (acc.1 ++ [form token], acc.2 ++ [upos token])
            else acc
       else acc)
    sentence ([], []).

(** [remove_multi_empty(self, corpus)] *)
Definition remove_multi_empty (corpus : list (list conll_token))
    : list string * list (list string) :=
  fold_left
    (fun acc sentence =>
       let tp := sentence_tokens_pos sentence in
       (acc.1 ++ [join " " tp.1], acc.2 ++ [tp.2]))
    corpus ([], []).

End UDReader.

(** ** Keras: [Tokenizer] and [pad_sequences], as the sources call them *)

Module Keras.

Import PyStr.

(** The state of a [Tokenizer(oov_token=...)]: every other option keeps its
    default ([lower=True], [num_words=None], [char_level=False]); the texts
    are Python lists of words, on which the filters are not applied.
    [word_counts] is an ordered dictionary: its order is the order of first
    occurrence. *)
Record Tokenizer : Type := mkTokenizer {
  oov_token : string;
  word_counts : list (string * Z);
  word_index : gmap string Z;
  index_word : gmap Z string
}.

(** [Tokenizer(oov_token=oov)] *)
Definition new (oov : string) : Tokenizer :=
  {| oov_token := oov; word_counts := []; word_index := ∅; index_word := ∅ |}.

(** [word_counts[w] += 1], or [word_counts[w] = 1] for a new word, which
    goes last. *)
Fixpoint count_word (w : string) (wc : list (string * Z)) : list (string * Z) :=
  match wc with
  | [] => [(w, 1)]
  | kn :: rest =>
      if String.eqb kn.1 w then (kn.1, kn.2 + 1) :: rest
      else kn :: count_word w rest
  end.

(** [wcounts.sort(key=lambda x: x[1], reverse=True)]: Python's sort is
    stable, also with [reverse=True], so words of equal count stay in the
    order of [word_counts]. *)
Fixpoint insert_desc (x : string * Z) (l : list (string * Z)) : list (string * Z) :=
  match l with
  | [] => [x]
  | y :: l' => if x.2 <? y.2 then y :: insert_desc x l' else x :: l
  end.

Definition sort_desc (l : list (string * Z)) : list (string * Z) :=
  foldr insert_desc [] l.

(** the word list of one text: [[text_elem.lower() for text_elem in text]] *)
Definition text_seq (text : list string) : list string := lower <$> text.

(** [sorted_voc]: the OOV token first, then the words by decreasing count. *)
Definition sorted_voc (oov : string) (wc : list (string * Z)) : list string :=
  oov :: (sort_desc wc).*1.

(** the loop [for w in seq] of [fit_on_texts] *)
Definition count_seq (seq : list string) (wc : list (string * Z)) : list (string * Z) :=
  fold_left (fun wc w => count_word w wc) seq wc.

(** the loop [for text in texts] of [fit_on_texts] *)
Definition count_texts (texts : list (list string)) (wc : list (string * Z))
    : list (string * Z) :=
  fold_left (fun wc text => count_seq (text_seq text) wc) texts wc.

(** [fit_on_texts(self, texts)] *)
Definition fit_on_texts (tk : Tokenizer) (texts : list (list string)) : Tokenizer :=
  let wc := count_texts texts (word_counts tk) in
  let wi := PyDict.dict_enumerate 1 (sorted_voc (oov_token tk) wc) in
  {| oov_token := oov_token tk;
     word_counts := wc;
     word_index := wi;
     index_word := PyDict.dict_invert wi |}.

(** What [texts_to_sequences] appends for the word [w] of [seq]: the index
    of [w], else [oov_token_index = word_index.get(oov_token)].  [None] is
    Python's [None], which only a tokenizer that was never fitted has for
    [oov_token_index]. *)
Definition word_id (tk : Tokenizer) (w : string) : option Z :=
  match word_index tk !! w with
  | Some i => Some i
  | None => word_index tk !! oov_token tk
  end.

(** [texts_to_sequences(self, texts)]; [None] when a sequence would hold
    Python's [None] (the [pad_sequences] that follows raises on it). *)
Definition texts_to_sequences (tk : Tokenizer) (texts : list (list string))
    : option (list (list Z)) :=
  mapM (fun text => mapM (word_id tk) (text_seq text)) texts.

(** [padding=] and [truncating=] *)
Inductive side : Type := pre | post.

(** [s[-maxlen:]] and [s[:maxlen]]; in Python [s[-0:]] is all of [s]. *)
Definition truncate (truncating : side) (maxlen : nat) (s : list Z) : list Z :=
  match truncating with
  | pre => if (maxlen =? 0)%nat then s else drop (length s - maxlen) s
  | post => take maxlen s
  end.

(** One row of [x = np.full((num_samples, maxlen), 0)] after
    [x[idx, :len(trunc)] = trunc] or [x[idx, -len(trunc):] = trunc];
    [None] is numpy's shape error when [trunc] is longer than the row.
    An empty [s] leaves the row as it is ([continue]). *)
Definition pad_row (padding truncating : side) (maxlen : nat) (s : list Z)
    : option (list Z) :=
  let row := replicate maxlen 0 in
  match s with
  | [] => Some row
  | _ :: _ =>
      let trunc := truncate truncating maxlen s in
      if decide (length trunc ≤ maxlen)%nat then
        Some match padding with
             | post => trunc ++ drop (length trunc) row
             | pre => take (maxlen - length trunc) row ++ trunc
             end
      else None
  end.

(** [pad_sequences(sequences, maxlen=maxlen, padding=..., truncating=...)]
    with the default [value=0]; the IDs of the sources fit the default
    [dtype="int32"]. *)
Definition pad_sequences (sequences : list (list Z)) (maxlen : nat)
    (padding truncating : side) : option (list (list Z)) :=
  mapM (pad_row padding truncating maxlen) sequences.

End Keras.

(** ** MyTagger.py *)

Module MyTagger.

(** [padding(self, targets)]: [truncating] is left at its default, ["pre"]. *)
Definition padding (targets : list (list Z)) : option (list (list Z)) :=
  Keras.pad_sequences targets 128 Keras.post Keras.pre.

End MyTagger.

(** ** tokenization_and_mapping.py *)

Module Tokenization.

Import PyStr.

Definition token : Type := string * string.

(** [split_words_tags(sentences)] *)
Definition split_words_tags (sentences : list (list token))
    : list (list string) * list (list string) :=
  ((fun sent => sent.*1) <$> sentences, (fun sent => sent.*2) <$> sentences).

(** [word_tokenizer]: [Tokenizer(oov_token="<OOV>")] after
    [fit_on_texts(X_train)] *)
Definition word_tokenizer (X_train : list (list string)) : Keras.Tokenizer :=
  Keras.fit_on_texts (Keras.new "<OOV>") X_train.

(** [vocab_size = len(word_index) + 1] *)
Definition vocab_size (tk : Keras.Tokenizer) : Z :=
  Z.of_nat (size (Keras.word_index tk)) + 1.

(** [sorted(set(...))]: insertion into a strictly increasing list. *)
Fixpoint insert_uniq (t : string) (l : list string) : list string :=
  match l with
  | [] => [t]
  | u :: l' =>
      match String.compare t u with
      | Lt => t :: l
      | Eq => l
      | Gt => u :: insert_uniq t l'
      end
  end.

(** [unique_tags = sorted(set(tag for sent in y_train for tag in sent))] *)
Definition unique_tags (y_train : list (list string)) : list string :=
  fold_left (fun acc tag => insert_uniq tag acc) (concat y_train) [].

(** [tag2id = {tag: i for i, tag in enumerate(unique_tags)}] *)
Definition tag2id (y_train : list (list string)) : gmap string Z :=
  PyDict.dict_enumerate 0 (unique_tags y_train).

(** [id2tag = {i: tag for tag, i in tag2id.items()}] *)
Definition id2tag (y_train : list (list string)) : gmap Z string :=
  PyDict.dict_invert (tag2id y_train).

(** [num_tags = len(tag2id)] *)
Definition num_tags (y_train : list (list string)) : Z :=
  Z.of_nat (size (tag2id y_train)).

(** [encode_sentences_and_tags(X, y, word_tokenizer, tag2id)]; [None] is
    the [KeyError] of [tag2id[tag]]. *)
Definition encode_sentences_and_tags (X y : list (list string))
    (word_tokenizer : Keras.Tokenizer) (tag2id : gmap string Z)
    : option (list (list Z) * list (list Z)) :=
  X_encoded ← Keras.texts_to_sequences word_tokenizer X;
  y_encoded ← mapM (fun tags => mapM (fun tag => tag2id !! tag) tags) y;
  Some (X_encoded, y_encoded).

Definition MAX_LEN : nat := 128.

(** [pad_sequences(ids, maxlen=MAX_LEN, padding='post', truncating='post')] *)
Definition pad (max_len : nat) (ids : list (list Z)) : option (list (list Z)) :=
  Keras.pad_sequences ids max_len Keras.post Keras.post.

(** [padded[:original_length]], the demo's [word_ids_no_padding] and
    [tag_ids_no_padding] *)
Definition no_padding (padded : list Z) (original_length : nat) : list Z :=
  take original_length padded.


(** [[word_tokenizer.index_word.get(i, "<UNK>") for i in word_ids_no_padding]] *)
Definition decoded_words (tk : Keras.Tokenizer) (word_ids_no_padding : list Z)
    : list string :=
  (fun i => PyDict.get (Keras.index_word tk) i "<UNK>") <$> word_ids_no_padding.

(** [[id2tag.get(i, "<UNK>") for i in tag_ids_no_padding]] *)
Definition decoded_tags (id2tag : gmap Z string) (tag_ids_no_padding : list Z)
    : list string :=
  (fun i => PyDict.get id2tag i "<UNK>") <$> tag_ids_no_padding.

(** The script from step 2 to the demo, for the training sentences
    [train_data] and one sentence [sent] of a split: split, fit on the
    training words, build the tag dictionaries from the training tags,
    encode, pad to [MAX_LEN], cut the padded rows back to the length of the
    sentence and decode.  [None]: an exception was raised on the way. *)
Definition encode_decode (train_data : list (list token)) (sent : list token)
    : option (list string * list string) :=
  let '(X_train, y_train) := split_words_tags train_data in
  let tk := word_tokenizer X_train in
  '(X_ids, y_ids) ← encode_sentences_and_tags [sent.*1] [sent.*2] tk (tag2id y_train);
  X_padded ← pad MAX_LEN X_ids;
  y_padded ← pad MAX_LEN y_ids;
  padded_word_ids ← head X_padded;
  padded_tag_ids ← head y_padded;
  let original_length := length sent in
  Some (decoded_words tk (no_padding padded_word_ids original_length),
        decoded_tags (id2tag y_train) (no_padding padded_tag_ids original_length)).

End Tokenization.

(** ** Sample inputs *)

Module Samples.

Definition LF : string := String "010" EmptyString.
Definition HT : string := String "009" EmptyString.

(** A token line of ten columns: the given ID, FORM and UPOS, and [_] in
    the seven columns that the processor does not read. *)
Definition token_line (id form upos : string) : string :=
  id +:+ HT +:+ form +:+ HT +:+ "_" +:+ HT +:+ upos +:+ HT +:+ "_" +:+ HT +:+ "_"
     +:+ HT +:+ "_" +:+ HT +:+ "_" +:+ HT +:+ "_" +:+ HT +:+ "_" +:+ LF.

(** The two-token sentence of the specification's first scenario. *)
Definition the_cat : string :=
  token_line "1" "The" "DET" +:+ token_line "2" "cat" "NOUN" +:+ LF.

(** One sentence whose lines carry the IDs 1, 2, 19-20, 1-2 and 10.1. *)
Definition five_ids : string :=
  token_line "1" "The" "DET" +:+ token_line "2" "cat" "NOUN"
    +:+ token_line "19-20" "don't" "AUX" +:+ token_line "1-2" "cannot" "AUX"
    +:+ token_line "10.1" "sat" "VERB" +:+ LF.

(** [n] plain token lines, then the empty line that ends the sentence. *)
Fixpoint token_lines (n : nat) : string :=
  match n with
  | O => LF
  | S n' => token_line "1" "w" "X" +:+ token_lines n'
  end.

(** a file system with the one file [data.conllu] *)
Definition one_file (text : string) : gmap string string :=
  {[ "data.conllu" := text ]}.

End Samples.

(** ** conllu_processor.py: the statistics and the three-file loader *)

Module CoNLLUStats.

Import PyStr CoNLLU.

(** [counts[k] += 1] on a [Counter]: a missing key counts as 0. *)
Definition counter_add `{Countable K} (k : K) (counts : gmap K Z) : gmap K Z :=
  <[k := default 0 (counts !! k) + 1]> counts.

(** [sum(counts.values())] *)
Definition counter_total `{Countable K} (counts : gmap K Z) : Z :=
  map_fold (fun _ n acc => acc + n) 0 counts.

(** [get_vocabulary(self)] *)
Definition get_vocabulary (p : CoNLLUProcessor) : gmap string Z :=
  fold_left
    (fun word_counts sentence =>
       fold_left (fun word_counts t => counter_add t.1 word_counts) sentence word_counts)
    (sentences p) ∅.

(** [get_pos_tags(self)] *)
Definition get_pos_tags (p : CoNLLUProcessor) : gmap string Z :=
  fold_left
    (fun pos_counts sentence =>
       fold_left (fun pos_counts t => counter_add t.2 pos_counts) sentence pos_counts)
    (sentences p) ∅.

(** [get_sentence_length_distribution(self)] *)
Definition get_sentence_length_distribution (p : CoNLLUProcessor) : gmap Z Z :=
  fold_left
    (fun length_counts sentence =>
       counter_add (Z.of_nat (length sentence)) length_counts)
    (sentences p) ∅.

(** [total_tokens = sum(len(sent) for sent in self.sentences)], as
    [print_statistics] computes it *)
Definition total_tokens (p : CoNLLUProcessor) : Z :=
  fold_left (fun acc sent => acc + Z.of_nat (length sent)) (sentences p) 0.



(** *** Vocabulary of the statements about the processor *)

(** the two processors hold the same sentences, counters and limit; their
    [raw_sentences], kept for debugging, may differ *)
Definition same_data (p q : CoNLLUProcessor) : Prop :=
  sentences p = sentences q
  ∧ removed_multiword_count p = removed_multiword_count q
  ∧ removed_empty_nodes p = removed_empty_nodes q
  ∧ removed_long_sentences p = removed_long_sentences q
  ∧ total_sentences_processed p = total_sentences_processed q
  ∧ max_sentence_length p = max_sentence_length q.

(** a comment line, or a line that is not empty and has not ten columns *)
Definition skipped_line (line : string) : bool :=
  truthy (strip line)
  && (startswith "#" (strip line)
      || negb (length (split TAB (strip line)) =? 10)%nat).

(** an empty line, or one of white space only *)
Definition blank_line (line : string) : bool := negb (truthy (strip line)).

(** a token as the processor keeps it: a form and a tag that are not empty
    and hold no tab, and a tag that is not the placeholder *)
Definition kept_token (t : token) : Prop :=
  t.1 ≠ EmptyString ∧ t.2 ≠ EmptyString ∧ t.2 ≠ "_"
  ∧ contains TAB t.1 = false ∧ contains TAB t.2 = false.

(** the books of the processor balance *)
Definition balanced (p : CoNLLUProcessor) : Prop :=
  total_sentences_processed p
    = Z.of_nat (length (sentences p)) + removed_long_sentences p
  ∧ length (raw_sentences p) = length (sentences p).

(** [c.isdigit()] for an ASCII character, and a string of digits only *)
Definition isdigit (c : ascii) : bool :=
  let n := nat_of_ascii c in (48 <=? n)%nat && (n <=? 57)%nat.

Fixpoint all_digits (s : string) : bool :=
  match s with
  | EmptyString => true
  | String c s' => isdigit c && all_digits s'
  end.

End CoNLLUStats.

(** ** Vocabulary of the statements about the tokenizer *)

Module Counts.

(** how often the word [k] stands in the list [ws] *)
Definition occurrences (k : string) (ws : list string) : Z :=
  Z.of_nat (length (filter (fun w => w = k) ws)).

(** the count that the ordered dictionary [wc] holds for [k], 0 without an
    entry *)
Fixpoint counted (k : string) (wc : list (string * Z)) : Z :=
  match wc with
  | [] => 0
  | kn :: rest => if String.eqb kn.1 k then kn.2 else counted k rest
  end.

(** the words of all texts, lowered, in the order in which [fit_on_texts]
    meets them *)
Definition lowered_words (texts : list (list string)) : list string :=
  PyStr.lower <$> concat texts.

End Counts.

(** ** MyTagger.py: what [predict] and [predict_conllu] do with the output
    of the model *)

Module Predict.

Import PyStr.

(** [s.split()]: the maximal runs of characters that are not white space. *)
Fixpoint words (s : string) : list string :=
  match s with
  | EmptyString => []
  | String c s' =>
      if isspace c then words s'
      else match s' with
           | EmptyString => [String c EmptyString]
           | String d _ =>
               if isspace d then String c EmptyString :: words s'
               else match words s' with
                    | w :: ws => String c w :: ws
                    | [] => [String c EmptyString]
                    end
           end
  end.

(** no character of [s] is white space *)
Fixpoint no_space (s : string) : bool :=
  match s with
  | EmptyString => true
  | String c s' => negb (isspace c) && no_space s'
  end.

Section with_model.

(** The scores that the model gives to the classes at one position, and
    [np.argmax] on them, are left open. *)
Context {scores : Type} (argmax : scores → Z).

(** the two loops that turn the cut predictions into [results] *)
Definition results_of (pred_no_padding : list (list scores)) : list (list Z) :=
  (fun prediction : list scores => argmax <$> prediction) <$> pred_no_padding.

(** [[pred[:seq_len] for pred, seq_len in zip(predictions, seq_length)]] *)
Definition cut (predictions : list (list scores)) (seq_length : list nat)
    : list (list scores) :=
  zip_with (fun pred seq_len => take seq_len pred) predictions seq_length.

(** [predict(self, test_inputs)], given [predictions =
    self.model.predict(test_ds)] *)
Definition predict (predictions : list (list scores)) (test_inputs : list string)
    : list (list Z) :=
  let seq_length := (fun seq => length (words seq)) <$> test_inputs in
  results_of (cut predictions seq_length).

(** [predict_conllu(self, test_inputs, corpus)], given [predictions] *)
Definition predict_conllu (predictions : list (list scores))
    (corpus : list (list UDReader.conll_token)) : list (list Z) :=
  let seq_length := (fun seq : list UDReader.conll_token => length seq) <$> corpus in
  results_of (cut predictions seq_length).

End with_model.

(** the tokens of a sentence that [remove_multi_empty] lets through *)
Definition plain_tokens (sentence : list UDReader.conll_token)
    : list UDReader.conll_token :=
  List.filter
    (fun token => negb (UDReader.is_multiword token || UDReader.is_empty_node token))
    sentence.

End Predict.

(** * Properties *)

(** ** Strings *)

Section string_facts.

Import PyStr.

Lemma split_startswith (sep c : ascii) (s w : string) (ws : list string) :
  sep ≠ c → split sep s = w :: ws → startswith c s = startswith c w.
Proof.
  intros Hne. destruct s as [|d s]; simpl.
  - intros [= <- _]. reflexivity.
  - destruct (Ascii.eqb_spec d sep) as [->|Hd].
    + intros [= <- _]. simpl. apply Ascii.eqb_neq. exact Hne.
    + destruct (split sep s); intros [= <- _]; reflexivity.
Qed.

Lemma split_nonempty_line (sep : ascii) (s : string) :
  (length (split sep s) ≠ 1)%nat → truthy s = true.
Proof. destruct s; simpl; [congruence | reflexivity]. Qed.

Lemma truthy_true (s : string) : s ≠ EmptyString → truthy s = true.
Proof. destruct s; [congruence | reflexivity]. Qed.

Lemma lower_char_idemp (c : ascii) : lower_char (lower_char c) = lower_char c.
Proof. destruct c as [[] [] [] [] [] [] [] []]; reflexivity. Qed.

Lemma lower_idemp (s : string) : lower (lower s) = lower s.
Proof. induction s as [|c s IH]; simpl; [reflexivity|]. by rewrite lower_char_idemp, IH. Qed.

Lemma lower_char_not_upper (c : ascii) : isupper (lower_char c) = false.
Proof. destruct c as [[] [] [] [] [] [] [] []]; reflexivity. Qed.

(** A lowered string is never the OOV token of the script. *)
Lemma lower_neq_OOV (s : string) : lower s ≠ "<OOV>".
Proof.
  destruct s as [|c0 [|c1 s]]; simpl; try discriminate.
  intros [= _ H1 _]. pose proof (lower_char_not_upper c1) as Hu.
  rewrite H1 in Hu. discriminate.
Qed.

End string_facts.

(** ** conllu_processor.py *)

Section parser_facts.

Import PyStr CoNLLU.

Lemma process_completed_sentence_max p s r :
  max_sentence_length (_process_completed_sentence p s r) = max_sentence_length p.
Proof.
  unfold _process_completed_sentence. simpl.
  repeat case_match; reflexivity.
Qed.

Lemma process_completed_sentence_within p s r :
  within (max_sentence_length p) (sentences p) →
  within (max_sentence_length p) (sentences (_process_completed_sentence p s r)).
Proof.
  intros Hw. unfold _process_completed_sentence. simpl.
  destruct (Z.ltb_spec (max_sentence_length p) (Z.of_nat (length s))); [exact Hw|].
  destruct (Z.ltb_spec 0 (Z.of_nat (length s))); [|exact Hw].
  simpl. apply Forall_app. split; [exact Hw|].
  apply Forall_singleton. lia.
Qed.

Lemma parse_token_line_frame p line :
  sentences (_parse_token_line p line).2 = sentences p ∧
  max_sentence_length (_parse_token_line p line).2 = max_sentence_length p.
Proof. unfold _parse_token_line. repeat case_match; simpl; done. Qed.

Lemma scan_line_within m s line :
  max_sentence_length (self s) = m → within m (sentences (self s)) →
  max_sentence_length (self (scan_line s line)) = m ∧
  within m (sentences (self (scan_line s line))).
Proof.
  intros Hm Hw. unfold scan_line.
  destruct (truthy (strip line)); simpl.
  - destruct (startswith "#" (strip line)); simpl; [done|].
    destruct (parse_token_line_frame (self s) (strip line)) as [Hs Hmax].
    destruct (_parse_token_line (self s) (strip line)) as [[t|] p'];
      simpl in *; rewrite Hs, Hmax; done.
  - destruct (current_sentence s); simpl; [done|].
    rewrite process_completed_sentence_max. split; [done|].
    subst m. by apply process_completed_sentence_within.
Qed.

Lemma fold_scan_within m lines s :
  max_sentence_length (self s) = m → within m (sentences (self s)) →
  max_sentence_length (self (fold_left scan_line lines s)) = m ∧
  within m (sentences (self (fold_left scan_line lines s))).
Proof.
  revert s. induction lines as [|l lines IH]; intros s Hm Hw; simpl; [done|].
  destruct (scan_line_within m s l Hm Hw) as [Hm' Hw']. by apply IH.
Qed.

Lemma parse_conllu_content_within p lines :
  within (max_sentence_length p) (sentences p) →
  within (max_sentence_length p) (sentences (_parse_conllu_content p lines)).
Proof.
  intros Hw. unfold _parse_conllu_content, scan_end.
  set (s0 := {| self := p; current_sentence := []; current_raw_sentence := [] |}).
  destruct (fold_scan_within (max_sentence_length p) lines s0 eq_refl Hw) as [Hm Hw'].
  destruct (current_sentence (fold_left scan_line lines s0)); [done|].
  rewrite <- Hm. apply process_completed_sentence_within. by rewrite Hm.
Qed.


End parser_facts.

(** *** Loading into a processor that already holds data *)

Section accumulation.

Import PyStr CoNLLU.

Lemma accumulate_bump_multiword p d :
  bump_multiword (accumulate p d) = accumulate p (bump_multiword d).
Proof. unfold accumulate, bump_multiword; simpl. f_equal; lia. Qed.

Lemma accumulate_bump_empty_nodes p d :
  bump_empty_nodes (accumulate p d) = accumulate p (bump_empty_nodes d).
Proof. unfold accumulate, bump_empty_nodes; simpl. f_equal; lia. Qed.

Lemma accumulate_bump_long p d :
  bump_long (accumulate p d) = accumulate p (bump_long d).
Proof. unfold accumulate, bump_long; simpl. f_equal; lia. Qed.

Lemma accumulate_bump_total p d :
  bump_total (accumulate p d) = accumulate p (bump_total d).
Proof. unfold accumulate, bump_total; simpl. f_equal; lia. Qed.

Lemma accumulate_keep_sentence s r p d :
  keep_sentence s r (accumulate p d) = accumulate p (keep_sentence s r d).
Proof.
  unfold accumulate, keep_sentence; simpl. f_equal; by rewrite app_assoc.
Qed.

Lemma accumulate_init m p :
  set_max_sentence_length m p = accumulate p (set_max_sentence_length m init).
Proof.
  unfold accumulate, set_max_sentence_length; simpl.
  rewrite !app_nil_r, !Z.add_0_r. reflexivity.
Qed.

Lemma accumulate_process_completed_sentence p d s r :
  _process_completed_sentence (accumulate p d) s r
  = accumulate p (_process_completed_sentence d s r).
Proof.
  unfold _process_completed_sentence.
  rewrite accumulate_bump_total.
  change (max_sentence_length (accumulate p (bump_total d)))
    with (max_sentence_length (bump_total d)).
  destruct (max_sentence_length (bump_total d) <? Z.of_nat (length s)).
  - apply accumulate_bump_long.
  - destruct (0 <? Z.of_nat (length s)); [apply accumulate_keep_sentence | reflexivity].
Qed.

Lemma accumulate_parse_token_line p d line :
  _parse_token_line (accumulate p d) line
  = ((_parse_token_line d line).1, accumulate p (_parse_token_line d line).2).
Proof.
  unfold _parse_token_line.
  repeat case_match; simpl;
    rewrite ?accumulate_bump_multiword, ?accumulate_bump_empty_nodes; reflexivity.
Qed.

Lemma shift_scan_line p s line :
  scan_line (shift p s) line = shift p (scan_line s line).
Proof.
  destruct s as [d cur raw]. unfold scan_line, shift; simpl.
  destruct (truthy (strip line)); simpl.
  - destruct (startswith "#" (strip line)); simpl; [reflexivity|].
    rewrite accumulate_parse_token_line.
    destruct (_parse_token_line d (strip line)) as [[t|] d']; reflexivity.
  - destruct cur; simpl; [reflexivity|].
    by rewrite accumulate_process_completed_sentence.
Qed.

Lemma shift_fold p lines s :
  fold_left scan_line lines (shift p s) = shift p (fold_left scan_line lines s).
Proof.
  revert s. induction lines as [|l lines IH]; intros s; simpl; [reflexivity|].
  by rewrite shift_scan_line, IH.
Qed.

Lemma accumulate_parse_conllu_content p d lines :
  _parse_conllu_content (accumulate p d) lines
  = accumulate p (_parse_conllu_content d lines).
Proof.
  unfold _parse_conllu_content.
  change {| self := accumulate p d; current_sentence := [];
            current_raw_sentence := [] |}
    with (shift p {| self := d; current_sentence := []; current_raw_sentence := [] |}).
  rewrite shift_fold. unfold scan_end, shift; simpl.
  destruct (current_sentence _); [reflexivity|].
  apply accumulate_process_completed_sentence.
Qed.

Lemma load_conllu_file_accumulates fs p filepath m :
  load_conllu_file fs p filepath m
  = ((load_conllu_file fs init filepath m).1,
     accumulate p (load_conllu_file fs init filepath m).2).
Proof.
  unfold load_conllu_file. rewrite (accumulate_init m p).
  destruct (fs !! filepath) as [text|]; simpl; [|reflexivity].
  by rewrite accumulate_parse_conllu_content.
Qed.

End accumulation.

(** *** Token lines *)

Section token_lines.

Import PyStr CoNLLU Samples.

(** [_parse_token_line] on a line of ten columns, by its ID, FORM and UPOS. *)
Lemma parse_token_line_fields p line token_id form lemma upos rest :
  split TAB line = token_id :: form :: lemma :: upos :: rest →
  length rest = 6%nat →
  _parse_token_line p line =
    if _is_multiword_token token_id then (None, bump_multiword p)
    else if _is_empty_node token_id then (None, bump_empty_nodes p)
    else if negb (truthy form) || negb (truthy upos) || String.eqb upos "_"
         then (None, p)
         else (Some (form, upos), p).
Proof.
  intros Hsplit Hlen. unfold _parse_token_line. rewrite Hsplit. simpl.
  rewrite Hlen. reflexivity.
Qed.

(** A stripped line of ten columns whose ID does not start with [#] reaches
    [_parse_token_line]. *)
Lemma scan_line_fields s raw_line token_id form lemma upos rest :
  split TAB (strip raw_line) = token_id :: form :: lemma :: upos :: rest →
  length rest = 6%nat →
  startswith "#" token_id = false →
  scan_line s raw_line =
    match _parse_token_line (self s) (strip raw_line) with
    | (Some token_data, p) =>
        {| self := p;
           current_sentence := current_sentence s ++ [token_data];
           current_raw_sentence := current_raw_sentence s ++ [strip raw_line] |}
    | (None, p) =>
        {| self := p;
           current_sentence := current_sentence s;
           current_raw_sentence := current_raw_sentence s |}
    end.
Proof.
  intros Hsplit Hlen Hhash. unfold scan_line.
  rewrite (split_nonempty_line TAB (strip raw_line)).
  2:{ rewrite Hsplit. simpl. lia. }
  simpl.
  rewrite (split_startswith TAB "#" _ _ _ ltac:(discriminate) Hsplit), Hhash.
  reflexivity.
Qed.

Lemma ten_parts (parts : list string) :
  length parts = 10%nat →
  ∃ lemma rest,
    parts = nth 0 parts EmptyString :: nth 1 parts EmptyString :: lemma
              :: nth 3 parts EmptyString :: rest
    ∧ length rest = 6%nat.
Proof.
  destruct parts as [|a [|b [|c [|d rest]]]]; simpl; try discriminate.
  intros [= Hlen]. by exists c, rest.
Qed.

(** A hyphen in the ID decides before anything else of the line is looked at. *)
Lemma parse_token_line_hyphen p line parts :
  split TAB line = parts → length parts = 10%nat →
  contains "-" (nth 0 parts EmptyString) = true →
  startswith "#" (nth 0 parts EmptyString) = false →
  _parse_token_line p line = (None, bump_multiword p).
Proof.
  intros Hsplit Hlen Hhy Hhash.
  destruct (ten_parts parts Hlen) as (lemma & rest & Hparts & Hrest).
  rewrite Hparts in Hsplit.
  rewrite (parse_token_line_fields p line _ _ _ _ _ Hsplit Hrest).
  unfold _is_multiword_token. by rewrite Hhy, Hhash.
Qed.

Lemma scan_line_hyphen s raw_line parts :
  split TAB (strip raw_line) = parts → length parts = 10%nat →
  contains "-" (nth 0 parts EmptyString) = true →
  startswith "#" (nth 0 parts EmptyString) = false →
  scan_line s raw_line =
    {| self := bump_multiword (self s);
       current_sentence := current_sentence s;
       current_raw_sentence := current_raw_sentence s |}.
Proof.
  intros Hsplit Hlen Hhy Hhash.
  destruct (ten_parts parts Hlen) as (lemma & rest & Hparts & Hrest).
  pose proof Hsplit as Hsplit'. rewrite Hparts in Hsplit'.
  rewrite (scan_line_fields s raw_line _ _ _ _ _ Hsplit' Hrest Hhash).
  by rewrite (parse_token_line_hyphen (self s) _ _ Hsplit Hlen Hhy Hhash).
Qed.

End token_lines.

(** *** The claims about the processor *)

Section processor_claims.

Import PyStr CoNLLU Samples.



(** C4.  Take a stripped line of ten columns with a non-empty FORM and UPOS
    other than [_].  With the ID 1 or 2 the loop appends [(form, upos)] to
    the current sentence and changes no counter.  With the ID 19-20 or 1-2
    it adds one to [removed_multiword_count], with the ID 10.1 one to
    [removed_empty_nodes], and in both cases the current sentence and the
    corpus stay as they were.  A file whose one sentence has these five
    lines ends as one sentence of two tokens, with the counts 2 and 1. *)
Theorem C4_only_plain_ids_become_tokens :
  (∀ (s : scan) (raw_line token_id form lemma upos : string) (rest : list string),
     split TAB (strip raw_line) = token_id :: form :: lemma :: upos :: rest →
     length rest = 6%nat →
     form ≠ EmptyString → upos ≠ EmptyString → upos ≠ "_" →
     (token_id = "1" ∨ token_id = "2" →
        scan_line s raw_line =
          {| self := self s;
             current_sentence := current_sentence s ++ [(form, upos)];
             current_raw_sentence := current_raw_sentence s ++ [strip raw_line] |})
     ∧ (token_id = "19-20" ∨ token_id = "1-2" →
        scan_line s raw_line =
          {| self := bump_multiword (self s);
             current_sentence := current_sentence s;
             current_raw_sentence := current_raw_sentence s |})
     ∧ (token_id = "10.1" →
        scan_line s raw_line =
          {| self := bump_empty_nodes (self s);
             current_sentence := current_sentence s;
             current_raw_sentence := current_raw_sentence s |}))
  ∧ (let p := (load_conllu_file (one_file five_ids) init "data.conllu" 128).2 in
     sentences p = [[("The", "DET"); ("cat", "NOUN")]]
     ∧ removed_multiword_count p = 2
     ∧ removed_empty_nodes p = 1).
Proof.
  split; [|by vm_compute].
  intros s raw_line token_id form lemma upos rest Hsplit Hlen Hform Hupos Hus.
  assert (Hvalid : negb (truthy form) || negb (truthy upos) || String.eqb upos "_" = false).
  { rewrite (truthy_true form Hform), (truthy_true upos Hupos). simpl.
    by apply String.eqb_neq. }
  pose proof (parse_token_line_fields (self s) _ _ _ _ _ _ Hsplit Hlen) as Hparse.
  pose proof (scan_line_fields s raw_line _ _ _ _ _ Hsplit Hlen) as Hscan.
  repeat split.
  - intros [-> | ->]; rewrite Hscan, Hparse by reflexivity; simpl;
      by rewrite Hvalid.
  - intros [-> | ->]; by rewrite Hscan, Hparse by reflexivity.
  - intros ->. by rewrite Hscan, Hparse by reflexivity.
Qed.

Lemma C4_only_plain_ids_become_tokens_witness :
  scan_line {| self := init; current_sentence := []; current_raw_sentence := [] |}
    (token_line "19-20" "don't" "AUX")
  = {| self := bump_multiword init; current_sentence := [];
       current_raw_sentence := [] |}.
Proof.
  refine (proj1 (proj2 (proj1 C4_only_plain_ids_become_tokens
            {| self := init; current_sentence := []; current_raw_sentence := [] |}
            (token_line "19-20" "don't" "AUX") "19-20" "don't" "_" "AUX"
            ["_"; "_"; "_"; "_"; "_"; "_"] _ _ _ _ _)) _).
  - vm_compute. reflexivity.
  - reflexivity.
  - discriminate.
  - discriminate.
  - discriminate.
  - left. reflexivity.
Defined.

(** C9.  A line of ten columns whose ID holds a hyphen and does not start
    with [#] makes [_parse_token_line] return [None] with one more in
    [removed_multiword_count], whatever stands around the hyphen and even
    when the ID also holds a dot: [removed_empty_nodes] is not touched.  The
    loop then leaves the current sentence unchanged.  So it is for the IDs
    [a-b] and [1-2.1]. *)
Theorem C9_any_hyphen_id_counts_as_multiword :
  (∀ (p : CoNLLUProcessor) (line : string) (parts : list string),
     split TAB line = parts → length parts = 10%nat →
     contains "-" (nth 0 parts EmptyString) = true →
     startswith "#" (nth 0 parts EmptyString) = false →
     _is_multiword_token (nth 0 parts EmptyString) = true
     ∧ _parse_token_line p line = (None, bump_multiword p)
     ∧ removed_multiword_count (_parse_token_line p line).2
       = removed_multiword_count p + 1
     ∧ removed_empty_nodes (_parse_token_line p line).2 = removed_empty_nodes p)
  ∧ (∀ (s : scan) (raw_line : string) (parts : list string),
     split TAB (strip raw_line) = parts → length parts = 10%nat →
     contains "-" (nth 0 parts EmptyString) = true →
     startswith "#" (nth 0 parts EmptyString) = false →
     scan_line s raw_line =
       {| self := bump_multiword (self s);
          current_sentence := current_sentence s;
          current_raw_sentence := current_raw_sentence s |})
  ∧ _parse_token_line init (strip (token_line "a-b" "x" "X"))
    = (None, bump_multiword init)
  ∧ _parse_token_line init (strip (token_line "1-2.1" "x" "X"))
    = (None, bump_multiword init).
Proof.
  split; [|split; [|split; by vm_compute]].
  - intros p line parts Hsplit Hlen Hhy Hhash.
    rewrite (parse_token_line_hyphen p line parts Hsplit Hlen Hhy Hhash).
    unfold _is_multiword_token. rewrite Hhy, Hhash. done.
  - intros s raw_line parts. apply scan_line_hyphen.
Qed.

Lemma C9_any_hyphen_id_counts_as_multiword_witness :
  _parse_token_line init (strip (token_line "a-b" "x" "X"))
  = (None, bump_multiword init).
Proof.
  refine (proj1 (proj2 (proj1 C9_any_hyphen_id_counts_as_multiword init
            (strip (token_line "a-b" "x" "X"))
            ["a-b"; "x"; "_"; "X"; "_"; "_"; "_"; "_"; "_"; "_"] _ _ _ _))).
  - vm_compute. reflexivity.
  - reflexivity.
  - reflexivity.
  - reflexivity.
Defined.

(** C7, as the code has it.  [load_conllu_file] never resets the fields
    that [__init__] created: loading into a processor [p] appends to the
    sentences of [p] the sentences that a fresh processor gets from the same
    file and limit, in the same order, and adds to each counter of [p] the
    count that the fresh processor gets.  Two fresh processors therefore end
    alike; a processor that loads the same file a second time holds every
    sentence twice and has every counter doubled. *)
Theorem C7_load_adds_to_what_is_held :
  ∀ (fs : gmap string string) (p : CoNLLUProcessor) (filepath : string) (m : Z),
    let fresh := (load_conllu_file fs init filepath m).2 in
    let again := (load_conllu_file fs p filepath m).2 in
    sentences again = sentences p ++ sentences fresh
    ∧ removed_multiword_count again
      = removed_multiword_count p + removed_multiword_count fresh
    ∧ removed_empty_nodes again = removed_empty_nodes p + removed_empty_nodes fresh
    ∧ removed_long_sentences again
      = removed_long_sentences p + removed_long_sentences fresh
    ∧ total_sentences_processed again
      = total_sentences_processed p + total_sentences_processed fresh
    ∧ (p = fresh →
       sentences again = sentences fresh ++ sentences fresh
       ∧ total_sentences_processed again = 2 * total_sentences_processed fresh
       ∧ removed_multiword_count again = 2 * removed_multiword_count fresh
       ∧ removed_empty_nodes again = 2 * removed_empty_nodes fresh
       ∧ removed_long_sentences again = 2 * removed_long_sentences fresh).
Proof.
  intros fs p filepath m fresh again. subst again.
  rewrite (load_conllu_file_accumulates fs p filepath m).
  change (accumulate p (load_conllu_file fs init filepath m).2)
    with (accumulate p fresh).
  clearbody fresh. unfold accumulate; simpl.
  split_and!; try reflexivity.
  intros ->. split_and!; try reflexivity; lia.
Qed.

Lemma C7_load_adds_to_what_is_held_witness :
  let once := (load_conllu_file (one_file the_cat) init "data.conllu" 128).2 in
  let twice := (load_conllu_file (one_file the_cat) once "data.conllu" 128).2 in
  sentences twice = sentences once ++ sentences once
  ∧ total_sentences_processed twice = 2 * total_sentences_processed once.
Proof.
  intros once twice.
  destruct (C7_load_adds_to_what_is_held (one_file the_cat) once "data.conllu" 128)
    as (_ & _ & _ & _ & _ & H).
  destruct (H eq_refl) as (Hs & Ht & _).
  split; [exact Hs | exact Ht].
Defined.

(** C7, as the claim has it, fails on a processor that is used twice: the
    second load of the same file leaves two sentences where the first left
    one, and [total_sentences_processed] is 2 after it, not 1. *)
Lemma C7_second_load_differs :
  let once := (load_conllu_file (one_file the_cat) init "data.conllu" 128).2 in
  let twice := (load_conllu_file (one_file the_cat) once "data.conllu" 128).2 in
  sentences once = [[("The", "DET"); ("cat", "NOUN")]]
  ∧ sentences twice = [[("The", "DET"); ("cat", "NOUN")]; [("The", "DET"); ("cat", "NOUN")]]
  ∧ total_sentences_processed once = 1
  ∧ total_sentences_processed twice = 2
  ∧ sentences twice ≠ sentences once
  ∧ total_sentences_processed twice ≠ total_sentences_processed once.
Proof. by vm_compute. Qed.

End processor_claims.

(** ** Padding *)

Section padding_facts.

Import Keras Tokenization.

Lemma mapM_total {A B : Type} (f : A → option B) (g : A → B) (l : list A) :
  Forall (fun x => f x = Some (g x)) l → mapM f l = Some (g <$> l).
Proof.
  intros Hl. apply mapM_Some. induction Hl; simpl; constructor; done.
Qed.

(** With ['post'] and ['post'] no input is refused: the row is the first
    [maxlen] elements followed by the zeros that are left of the row. *)
Lemma pad_row_post (maxlen : nat) (s : list Z) :
  pad_row post post maxlen s
  = Some (take maxlen s ++ replicate (maxlen - length s) 0).
Proof.
  unfold pad_row, truncate. destruct s as [|z s].
  - by rewrite take_nil, Nat.sub_0_r.
  - set (l := z :: s). rewrite decide_True by (rewrite length_take; lia).
    f_equal. f_equal. rewrite drop_replicate, length_take. f_equal. lia.
Qed.

Lemma pad_row_post_short (maxlen : nat) (s : list Z) :
  (length s ≤ maxlen)%nat →
  pad_row post post maxlen s = Some (s ++ replicate (maxlen - length s) 0).
Proof. intros Hle. by rewrite pad_row_post, take_ge. Qed.


Lemma pad_total (max_len : nat) (ids : list (list Z)) :
  pad max_len ids
  = Some ((fun s => take max_len s ++ replicate (max_len - length s) 0) <$> ids).
Proof.
  unfold pad, pad_sequences. apply mapM_total, Forall_forall.
  intros s _. apply pad_row_post.
Qed.


(** With the default ['pre'] a sequence longer than the row loses its
    first elements. *)
Lemma pad_row_post_pre_long (maxlen : nat) (s : list Z) :
  (0 < maxlen)%nat → (maxlen ≤ length s)%nat →
  pad_row post pre maxlen s = Some (drop (length s - maxlen) s).
Proof.
  intros Hpos Hle. unfold pad_row, truncate. destruct s as [|z s].
  - simpl in Hle. lia.
  - set (l := z :: s) in *.
    destruct (Nat.eqb_spec maxlen 0) as [->|_]; [lia|].
    rewrite decide_True by (rewrite length_drop; lia).
    f_equal. rewrite drop_replicate, length_drop.
    replace (maxlen - (length l - (length l - maxlen)))%nat with 0%nat by lia.
    by rewrite app_nil_r.
Qed.





(** C6, in [MyTagger.padding].  The call leaves [truncating] at its default
    ['pre']: of a sequence of 128 elements or more the row keeps the last
    128, so a longer sequence loses its first elements.  The sequence
    1, ..., 129 becomes the row 2, ..., 129, where the claim asks for
    1, ..., 128. *)
Theorem C6_MyTagger_padding_keeps_the_end :
  (∀ s : list Z, (128 ≤ length s)%nat →
     MyTagger.padding [s] = Some [drop (length s - 128) s])
  ∧ MyTagger.padding [seqZ 1 129] = Some [seqZ 2 128]
  ∧ take 128 (seqZ 1 129) = seqZ 1 128
  ∧ seqZ 2 128 ≠ seqZ 1 128.
Proof.
  split; [|split; [|split]]; [|by vm_compute..].
  intros s Hs. unfold MyTagger.padding, pad_sequences. simpl.
  rewrite pad_row_post_pre_long by lia. reflexivity.
Qed.

Lemma C6_MyTagger_padding_keeps_the_end_witness :
  MyTagger.padding [seqZ 1 130] = Some [drop (length (seqZ 1 130) - 128) (seqZ 1 130)].
Proof.
  apply (proj1 C6_MyTagger_padding_keeps_the_end (seqZ 1 130)).
  rewrite length_seqZ. lia.
Defined.

End padding_facts.

(** ** Dictionaries *)

Section dict_facts.

Import PyDict.

Context `{Countable K}.

Lemma dict_of_pairs_lookup {V : Type} (l : list (K * V)) (k : K) (v : V) :
  NoDup l.*1 → dict_of_pairs l !! k = Some v ↔ (k, v) ∈ l.
Proof.
  intros Hnd. unfold dict_of_pairs.
  rewrite <- elem_of_list_to_map, elem_of_reverse; [done|].
  by rewrite fmap_reverse, reverse_Permutation.
Qed.

Lemma dict_of_pairs_size {V : Type} (l : list (K * V)) :
  NoDup l.*1 → size (dict_of_pairs l) = length l.
Proof.
  intros Hnd. unfold dict_of_pairs.
  rewrite map_size_list_to_map, length_reverse; [done|].
  by rewrite fmap_reverse, reverse_Permutation.
Qed.

Lemma zip_seqZ_fst (start : Z) (keys : list K) :
  (zip keys (seqZ start (Z.of_nat (length keys)))).*1 = keys.
Proof. apply fst_zip. rewrite length_seqZ. lia. Qed.

(** The key at position [i] of [keys] gets the number [start + i]. *)
Lemma dict_enumerate_lookup (start : Z) (keys : list K) (k : K) (c : Z) :
  NoDup keys →
  dict_enumerate start keys !! k = Some c
  ↔ ∃ i : nat, keys !! i = Some k ∧ c = start + Z.of_nat i.
Proof.
  intros Hnd. unfold dict_enumerate.
  rewrite dict_of_pairs_lookup by (by rewrite zip_seqZ_fst).
  rewrite list_elem_of_lookup. split.
  - intros [i Hi]. exists i.
    apply lookup_zip_with_Some in Hi as (k' & c' & [= <- <-] & Hk & Hc).
    apply lookup_seqZ in Hc as [-> _]. done.
  - intros (i & Hk & ->). exists i.
    apply lookup_zip_with_Some. exists k, (start + Z.of_nat i).
    split_and!; [done..|].
    apply lookup_seqZ_lt. apply lookup_lt_Some in Hk. lia.
Qed.

Lemma dict_enumerate_size (start : Z) (keys : list K) :
  NoDup keys → size (dict_enumerate start keys) = length keys.
Proof.
  intros Hnd. unfold dict_enumerate.
  rewrite dict_of_pairs_size by (by rewrite zip_seqZ_fst).
  rewrite length_zip_with_l_eq; [done|]. rewrite length_seqZ. lia.
Qed.

Lemma dict_enumerate_inj (start : Z) (keys : list K) (k1 k2 : K) (c : Z) :
  NoDup keys →
  dict_enumerate start keys !! k1 = Some c →
  dict_enumerate start keys !! k2 = Some c → k1 = k2.
Proof.
  intros Hnd H1 H2.
  apply dict_enumerate_lookup in H1 as (i1 & Hi1 & ->); [|done].
  apply dict_enumerate_lookup in H2 as (i2 & Hi2 & Heq); [|done].
  assert (i1 = i2) as -> by lia. congruence.
Qed.

Lemma dict_enumerate_mem (start : Z) (keys : list K) (k : K) :
  NoDup keys → k ∈ keys → is_Some (dict_enumerate start keys !! k).
Proof.
  intros Hnd [i Hi]%list_elem_of_lookup. exists (start + Z.of_nat i).
  apply dict_enumerate_lookup; [done|]. by exists i.
Qed.

Lemma dict_enumerate_not_mem (start : Z) (keys : list K) (k : K) :
  NoDup keys → k ∉ keys → dict_enumerate start keys !! k = None.
Proof.
  intros Hnd Hk. apply eq_None_not_Some. intros [c Hc].
  apply dict_enumerate_lookup in Hc as (i & Hi & _); [|done].
  apply Hk. apply list_elem_of_lookup. by exists i.
Qed.

End dict_facts.

Section dict_invert_facts.

Import PyDict.

Context `{Countable K} `{Countable V}.

(** The inverse of a dictionary with pairwise distinct values. *)
Lemma dict_invert_lookup (d : gmap K V) (k : K) (v : V) :
  (∀ k1 k2 v', d !! k1 = Some v' → d !! k2 = Some v' → k1 = k2) →
  dict_invert d !! v = Some k ↔ d !! k = Some v.
Proof.
  intros Hinj. unfold dict_invert.
  rewrite dict_of_pairs_lookup.
  - rewrite list_elem_of_fmap. split.
    + intros ([k' v'] & [= -> ->] & Hin). by apply elem_of_map_to_list.
    + intros Hd. exists (k, v). split; [done|]. by apply elem_of_map_to_list.
  - rewrite <- list_fmap_compose.
    apply NoDup_fmap_2_strong; [|apply NoDup_map_to_list].
    intros [k1 v1] [k2 v2] H1%elem_of_map_to_list H2%elem_of_map_to_list Heq.
    simpl in Heq. subst v2. f_equal. by eapply Hinj.
Qed.

End dict_invert_facts.

(** ** Mapper.py *)

Section mapper_facts.

Import PyDict Mapper.

Lemma id_mapping_lookup (t : string) (i : Z) :
  id_mapping !! t = Some i ↔ (t, i) ∈ id_items.
Proof.
  apply (dict_of_pairs_lookup id_items).
  apply (bool_decide_unpack _). by vm_compute.
Qed.

Lemma pos_mapping_lookup (i : Z) (t : string) :
  pos_mapping !! i = Some t ↔ (t, i) ∈ id_items.
Proof.
  change pos_mapping with (dict_of_pairs (prod_swap <$> id_items)).
  rewrite (dict_of_pairs_lookup (prod_swap <$> id_items)).
  - rewrite list_elem_of_fmap. split.
    + intros ([t' i'] & [= -> ->] & Hin). exact Hin.
    + intros Hin. by exists (t, i).
  - apply (bool_decide_unpack _). by vm_compute.
Qed.

Lemma pos_mapping_None (i : Z) : pos_mapping !! i = None ↔ i < 1 ∨ 18 < i.
Proof.
  unfold pos_mapping, dict_of_pairs. rewrite <- not_elem_of_list_to_map.
  rewrite fmap_reverse, elem_of_reverse.
  change ((_ : list (Z * string)).*1) with (seqZ 1 18).
  rewrite elem_of_seqZ. lia.
Qed.

Lemma id_mapping_range (t : string) (i : Z) :
  id_mapping !! t = Some i → 1 ≤ i ≤ 18.
Proof.
  rewrite id_mapping_lookup. intros Hin.
  assert (Hall : Forall (fun ti : string * Z => 1 ≤ ti.2 ≤ 18) id_items).
  { unfold id_items. repeat constructor; simpl; lia. }
  rewrite Forall_forall in Hall. exact (Hall _ Hin).
Qed.

Lemma map_pos_map_ids (targets : list string) (ids : list Z) :
  map_ids targets = Some ids → map_pos ids = Some targets.
Proof.
  unfold map_ids, map_pos. rewrite !mapM_Some.
  induction 1 as [|t i targets ids Hti _ IH]; constructor; [|exact IH].
  by apply pos_mapping_lookup, id_mapping_lookup.
Qed.

(** C2, as the code has it.  The dictionary has 18 entries: the 17 tags
    ADJ, ..., X with the IDs 1, ..., 17 in the documented order, and UNK
    with the ID 18.  [pos_mapping] is its inverse, so the two are a
    bijection between these 18 names and 1, ..., 18; no ID is 0, the padding
    value; DET is 6 and NOUN is 8.  A name outside the 18 raises. *)
Theorem C2_seventeen_tags_and_UNK_is_18 :
  map_ids ["ADJ"; "ADP"; "ADV"; "AUX"; "CCONJ"; "DET"; "INTJ"; "NOUN"; "NUM";
           "PART"; "PRON"; "PROPN"; "PUNCT"; "SCONJ"; "SYM"; "VERB"; "X"; "UNK"]
    = Some (seqZ 1 18)
  ∧ map_pos (seqZ 1 18)
    = Some ["ADJ"; "ADP"; "ADV"; "AUX"; "CCONJ"; "DET"; "INTJ"; "NOUN"; "NUM";
            "PART"; "PRON"; "PROPN"; "PUNCT"; "SCONJ"; "SYM"; "VERB"; "X"; "UNK"]
  ∧ size id_mapping = 18%nat
  ∧ size pos_mapping = 18%nat
  ∧ (∀ (t : string) (i : Z), id_mapping !! t = Some i ↔ pos_mapping !! i = Some t)
  ∧ (∀ (t : string) (i : Z), id_mapping !! t = Some i → 1 ≤ i ≤ 18 ∧ i ≠ 0)
  ∧ (∀ (targets : list string) (ids : list Z),
       map_ids targets = Some ids → map_pos ids = Some targets)
  ∧ map_ids ["DET"] = Some [6]
  ∧ map_ids ["NOUN"] = Some [8]
  ∧ map_ids ["UNK"] = Some [18]
  ∧ map_ids ["det"] = None.
Proof.
  split_and!; try by vm_compute.
  - intros t i. by rewrite id_mapping_lookup, pos_mapping_lookup.
  - intros t i Hti. pose proof (id_mapping_range t i Hti). lia.
  - apply map_pos_map_ids.
Qed.

Lemma C2_seventeen_tags_and_UNK_is_18_witness :
  map_pos [6; 8] = Some ["DET"; "NOUN"].
Proof.
  apply (proj1 (proj2 (proj2 (proj2 (proj2 (proj2 (proj2
           C2_seventeen_tags_and_UNK_is_18))))))
           ["DET"; "NOUN"] [6; 8]).
  vm_compute. reflexivity.
Defined.

(** C2, as the claim has it, fails: UNK has the ID 18 and not 19, and 19 is
    the ID of no tag. *)
Lemma C2_UNK_is_not_19 :
  map_ids ["UNK"] = Some [18]
  ∧ map_ids ["UNK"] ≠ Some [19]
  ∧ map_pos [19] = None
  ∧ size id_mapping = 18%nat.
Proof. split_and!; by vm_compute. Qed.

End mapper_facts.

(** ** The Keras tokenizer *)

Section counting_facts.

Import PyStr Keras.

Lemma count_word_keys (w k : string) (wc : list (string * Z)) :
  k ∈ (count_word w wc).*1 ↔ k = w ∨ k ∈ wc.*1.
Proof.
  induction wc as [|[k' n] wc IH]; simpl.
  - rewrite list_elem_of_singleton, elem_of_nil. tauto.
  - destruct (String.eqb_spec k' w) as [->|Hne]; simpl.
    + rewrite !elem_of_cons. tauto.
    + rewrite !elem_of_cons, IH. tauto.
Qed.

Lemma count_word_NoDup (w : string) (wc : list (string * Z)) :
  NoDup wc.*1 → NoDup (count_word w wc).*1.
Proof.
  induction wc as [|[k' n] wc IH]; simpl.
  - intros _. apply NoDup_singleton.
  - intros [Hk' Hnd]%NoDup_cons.
    destruct (String.eqb_spec k' w) as [->|Hne]; simpl.
    + by apply NoDup_cons.
    + apply NoDup_cons. split; [|by apply IH].
      rewrite count_word_keys. intros [->|?]; done.
Qed.

Lemma count_seq_keys (seq : list string) (k : string) (wc : list (string * Z)) :
  k ∈ (count_seq seq wc).*1 ↔ k ∈ seq ∨ k ∈ wc.*1.
Proof.
  unfold count_seq. revert wc.
  induction seq as [|w seq IH]; intros wc; simpl.
  - rewrite elem_of_nil. tauto.
  - rewrite IH, count_word_keys, elem_of_cons. tauto.
Qed.

Lemma count_seq_NoDup (seq : list string) (wc : list (string * Z)) :
  NoDup wc.*1 → NoDup (count_seq seq wc).*1.
Proof.
  unfold count_seq. revert wc.
  induction seq as [|w seq IH]; intros wc Hnd; simpl; [done|].
  by apply IH, count_word_NoDup.
Qed.

Lemma count_texts_keys (texts : list (list string)) (k : string)
    (wc : list (string * Z)) :
  k ∈ (count_texts texts wc).*1
  ↔ (∃ text, text ∈ texts ∧ k ∈ text_seq text) ∨ k ∈ wc.*1.
Proof.
  unfold count_texts. revert wc.
  induction texts as [|text texts IH]; intros wc; simpl.
  - split; [by right|]. intros [(t & Ht & _) | Hk]; [|done].
    by apply elem_of_nil in Ht.
  - rewrite IH, count_seq_keys. split.
    + intros [(t & Ht & Hk) | [Hk | Hk]].
      * left. exists t. rewrite elem_of_cons. tauto.
      * left. exists text. rewrite elem_of_cons. tauto.
      * by right.
    + intros [(t & Ht & Hk) | Hk]; [|by right; right].
      apply elem_of_cons in Ht as [-> | Ht]; [by right; left|].
      left. by exists t.
Qed.

Lemma count_texts_NoDup (texts : list (list string)) (wc : list (string * Z)) :
  NoDup wc.*1 → NoDup (count_texts texts wc).*1.
Proof.
  unfold count_texts. revert wc.
  induction texts as [|text texts IH]; intros wc Hnd; simpl; [done|].
  by apply IH, count_seq_NoDup.
Qed.

Lemma insert_desc_Permutation (x : string * Z) (l : list (string * Z)) :
  insert_desc x l ≡ₚ x :: l.
Proof.
  induction l as [|y l IH]; simpl; [done|].
  destruct (x.2 <? y.2); [|done].
  by rewrite IH, Permutation_swap.
Qed.

Lemma sort_desc_Permutation (l : list (string * Z)) : sort_desc l ≡ₚ l.
Proof.
  unfold sort_desc. induction l as [|x l IH]; simpl; [done|].
  by rewrite insert_desc_Permutation, IH.
Qed.

(** the words of [sorted_voc] after the OOV token are the counted words *)
Lemma sorted_voc_words (oov k : string) (wc : list (string * Z)) :
  k ∈ sorted_voc oov wc ↔ k = oov ∨ k ∈ wc.*1.
Proof.
  unfold sorted_voc. by rewrite elem_of_cons, sort_desc_Permutation.
Qed.

Lemma sorted_voc_NoDup (oov : string) (wc : list (string * Z)) :
  oov ∉ wc.*1 → NoDup wc.*1 → NoDup (sorted_voc oov wc).
Proof.
  intros Hoov Hnd. unfold sorted_voc. apply NoDup_cons.
  by rewrite sort_desc_Permutation.
Qed.

End counting_facts.

Section enumerate_facts.

Import PyDict.

Context `{Countable K}.

(** the inverse of an enumeration sends [start + i] back to the key at [i] *)
Lemma dict_invert_enumerate_lookup (start : Z) (keys : list K) (c : Z) (k : K) :
  NoDup keys →
  dict_invert (dict_enumerate start keys) !! c = Some k
  ↔ ∃ i : nat, keys !! i = Some k ∧ c = start + Z.of_nat i.
Proof.
  intros Hnd. rewrite dict_invert_lookup.
  - by apply dict_enumerate_lookup.
  - intros k1 k2 c'. by apply dict_enumerate_inj.
Qed.

Lemma dict_invert_enumerate_None (start : Z) (keys : list K) (c : Z) :
  NoDup keys →
  dict_invert (dict_enumerate start keys) !! c = None
  ↔ c < start ∨ start + Z.of_nat (length keys) ≤ c.
Proof.
  intros Hnd. rewrite eq_None_not_Some. split.
  - intros Hnone.
    destruct (decide (start ≤ c < start + Z.of_nat (length keys))) as [Hin|]; [|lia].
    exfalso. apply Hnone.
    destruct (lookup_lt_is_Some_2 keys (Z.to_nat (c - start))) as [k Hk]; [lia|].
    exists k. apply dict_invert_enumerate_lookup; [done|].
    exists (Z.to_nat (c - start)). split; [done|lia].
  - intros Hout [k Hk].
    apply dict_invert_enumerate_lookup in Hk as (i & Hi & ->); [|done].
    apply lookup_lt_Some in Hi. lia.
Qed.

End enumerate_facts.

Section tokenizer_facts.

Import PyStr PyDict Keras Tokenization.

Variable X_train : list (list string).

Local Abbreviation tk := (word_tokenizer X_train).
Local Abbreviation voc := (sorted_voc "<OOV>" (count_texts X_train [])).

Lemma word_index_fit : word_index tk = dict_enumerate 1 voc.
Proof. reflexivity. Qed.

Lemma index_word_fit : index_word tk = dict_invert (dict_enumerate 1 voc).
Proof. reflexivity. Qed.

(** the counted words are the lowered words of the training texts *)
Lemma counted_words (k : string) :
  k ∈ (count_texts X_train []).*1
  ↔ ∃ text w, text ∈ X_train ∧ w ∈ text ∧ k = lower w.
Proof.
  rewrite count_texts_keys. simpl. rewrite elem_of_nil. split.
  - intros [(text & Htext & Hk) | []].
    apply list_elem_of_fmap in Hk as (w & -> & Hw). by exists text, w.
  - intros (text & w & Htext & Hw & ->). left. exists text. split; [done|].
    apply list_elem_of_fmap. by exists w.
Qed.

Lemma counted_words_lower (k : string) :
  k ∈ (count_texts X_train []).*1 → lower k = k.
Proof.
  intros (text & w & _ & _ & ->)%counted_words. apply lower_idemp.
Qed.

Lemma voc_NoDup : NoDup voc.
Proof.
  apply sorted_voc_NoDup.
  - intros Hk%counted_words_lower. by apply (lower_neq_OOV "<OOV>").
  - apply count_texts_NoDup. simpl. constructor.
Qed.

Lemma vocab_size_fit : vocab_size tk = Z.of_nat (length voc) + 1.
Proof.
  unfold vocab_size. rewrite word_index_fit, dict_enumerate_size; [done|].
  apply voc_NoDup.
Qed.

Lemma vocab_size_ge_2 : 2 ≤ vocab_size tk.
Proof. rewrite vocab_size_fit. unfold sorted_voc. simpl. lia. Qed.

Lemma word_index_OOV : word_index tk !! "<OOV>" = Some 1.
Proof.
  rewrite word_index_fit. apply dict_enumerate_lookup; [apply voc_NoDup|].
  by exists 0%nat.
Qed.

(** the index 1 is that of the OOV token; every other index is at least 2,
    below [vocab_size], and belongs to a lowered training word *)
Lemma word_index_cases (k : string) (c : Z) :
  word_index tk !! k = Some c →
  (c = 1 ∧ k = "<OOV>")
  ∨ (2 ≤ c < vocab_size tk ∧ lower k = k ∧ k ∈ (count_texts X_train []).*1).
Proof.
  rewrite word_index_fit, vocab_size_fit. intros Hk.
  apply dict_enumerate_lookup in Hk as (i & Hi & ->); [|apply voc_NoDup].
  destruct i as [|i]; simpl in Hi.
  - left. split; [done|congruence].
  - right. pose proof (lookup_lt_Some _ _ _ Hi) as Hlt.
    rewrite length_fmap in Hlt. simpl. rewrite length_fmap.
    assert (Hin : k ∈ (count_texts X_train []).*1).
    { rewrite <- (sort_desc_Permutation (count_texts X_train [])).
      apply list_elem_of_lookup. by exists i. }
    split_and!; [lia | lia | by apply counted_words_lower | done].
Qed.

Lemma word_index_known (text : list string) (w : string) :
  text ∈ X_train → w ∈ text →
  ∃ c, word_index tk !! lower w = Some c ∧ 2 ≤ c < vocab_size tk.
Proof.
  intros Htext Hw.
  assert (Hin : lower w ∈ (count_texts X_train []).*1).
  { apply counted_words. by exists text, w. }
  destruct (dict_enumerate_mem 1 voc (lower w) voc_NoDup) as [c Hc].
  { apply sorted_voc_words. by right. }
  exists c. split; [done|].
  destruct (word_index_cases (lower w) c Hc) as [[_ Hoov] | [Hc' _]]; [|done].
  by apply lower_neq_OOV in Hoov.
Qed.

Lemma index_word_lookup (c : Z) (k : string) :
  index_word tk !! c = Some k ↔ word_index tk !! k = Some c.
Proof.
  rewrite index_word_fit, word_index_fit. apply dict_invert_lookup.
  intros k1 k2 c'. apply dict_enumerate_inj, voc_NoDup.
Qed.

Lemma index_word_None (c : Z) :
  index_word tk !! c = None ↔ c < 1 ∨ vocab_size tk ≤ c.
Proof.
  rewrite index_word_fit, vocab_size_fit.
  rewrite dict_invert_enumerate_None by apply voc_NoDup. lia.
Qed.

(** every word has an ID: its own, or that of the OOV token *)
Lemma word_id_cases (w : string) :
  (∃ c, word_index tk !! w = Some c ∧ word_id tk w = Some c)
  ∨ (word_index tk !! w = None ∧ word_id tk w = Some 1).
Proof.
  unfold word_id. simpl. destruct (dict_enumerate 1 voc !! w) as [c|] eqn:Hw.
  - left. by exists c.
  - right. split; [done|]. apply word_index_OOV.
Qed.

Lemma texts_to_sequences_word (w : string) :
  texts_to_sequences tk [[w]] = (fun i => [[i]]) <$> word_id tk (lower w).
Proof.
  unfold texts_to_sequences. simpl. by destruct (word_id tk (lower w)).
Qed.

Lemma decoded_word (i : Z) :
  decoded_words tk [i] = [default "<UNK>" (index_word tk !! i)].
Proof. reflexivity. Qed.

Lemma decoded_word_Some (i : Z) (w : string) :
  index_word tk !! i = Some w → decoded_words tk [i] = [w].
Proof. intros Hi. by rewrite decoded_word, Hi. Qed.

Lemma decoded_word_None (i : Z) :
  index_word tk !! i = None → decoded_words tk [i] = ["<UNK>"].
Proof. intros Hi. by rewrite decoded_word, Hi. Qed.

(** the ID of one word: its index when its lowercase was counted, else 1 *)
Lemma encode_word_cases (w : string) :
  (∃ c, word_index tk !! lower w = Some c
        ∧ texts_to_sequences tk [[w]] = Some [[c]])
  ∨ (word_index tk !! lower w = None ∧ texts_to_sequences tk [[w]] = Some [[1]]).
Proof.
  rewrite texts_to_sequences_word.
  destruct (word_id_cases (lower w)) as [(c & Hc & ->) | [Hn ->]].
  - left. by exists c.
  - by right.
Qed.

End tokenizer_facts.

(** ** The tag dictionaries of the script *)

Section tag_facts.

Import PyDict Tokenization.
Import OrderedTypeEx.

Lemma insert_uniq_elem (t k : string) (l : list string) :
  k ∈ insert_uniq t l ↔ k = t ∨ k ∈ l.
Proof.
  induction l as [|u l IH]; simpl.
  - rewrite list_elem_of_singleton, elem_of_nil. tauto.
  - destruct (String.compare t u) eqn:Hcmp.
    + apply String_as_OT.cmp_eq in Hcmp as ->. rewrite elem_of_cons. tauto.
    + rewrite !elem_of_cons. tauto.
    + rewrite !elem_of_cons, IH. tauto.
Qed.

Lemma insert_uniq_sorted (t : string) (l : list string) :
  StronglySorted String_as_OT.lt l → StronglySorted String_as_OT.lt (insert_uniq t l).
Proof.
  induction 1 as [|u l Hl IH Hu]; simpl.
  - repeat constructor.
  - destruct (String.compare t u) eqn:Hcmp.
    + by constructor.
    + apply String_as_OT.cmp_lt in Hcmp.
      constructor; [by constructor|]. constructor; [done|].
      eapply Forall_impl; [exact Hu|]. intros x Hx.
      by apply (String_as_OT.lt_trans t u x).
    + constructor; [exact IH|].
      apply Forall_forall. intros x [-> | Hx]%insert_uniq_elem.
      * apply String_as_OT.cmp_lt. rewrite String_as_OT.cmp_antisym.
        unfold String_as_OT.cmp. by rewrite Hcmp.
      * rewrite Forall_forall in Hu. by apply Hu.
Qed.

Lemma sorted_NoDup (l : list string) :
  StronglySorted String_as_OT.lt l → NoDup l.
Proof.
  induction 1 as [|u l Hl IH Hu]; constructor; [|exact IH].
  intros Hin. rewrite Forall_forall in Hu.
  by apply (String_as_OT.lt_not_eq u u (Hu u Hin)).
Qed.

Lemma fold_insert_uniq (tags acc : list string) :
  StronglySorted String_as_OT.lt acc →
  StronglySorted String_as_OT.lt (fold_left (fun acc tag => insert_uniq tag acc) tags acc)
  ∧ ∀ k, k ∈ fold_left (fun acc tag => insert_uniq tag acc) tags acc
         ↔ k ∈ tags ∨ k ∈ acc.
Proof.
  revert acc. induction tags as [|t tags IH]; intros acc Hacc; simpl.
  - split; [done|]. intros k. rewrite elem_of_nil. tauto.
  - destruct (IH (insert_uniq t acc) (insert_uniq_sorted t acc Hacc)) as [Hs Hk].
    split; [done|]. intros k. rewrite Hk, insert_uniq_elem, elem_of_cons. tauto.
Qed.

Variable y_train : list (list string).

Lemma unique_tags_NoDup : NoDup (unique_tags y_train).
Proof. apply sorted_NoDup, fold_insert_uniq. constructor. Qed.

Lemma unique_tags_elem (tag : string) :
  tag ∈ unique_tags y_train ↔ tag ∈ concat y_train.
Proof.
  unfold unique_tags.
  destruct (fold_insert_uniq (concat y_train) [] ltac:(constructor)) as [_ Hk].
  rewrite Hk, elem_of_nil. tauto.
Qed.

Lemma num_tags_length : num_tags y_train = Z.of_nat (length (unique_tags y_train)).
Proof.
  unfold num_tags, tag2id. by rewrite dict_enumerate_size by apply unique_tags_NoDup.
Qed.

Lemma tag2id_known (tag : string) :
  tag ∈ concat y_train →
  ∃ i, tag2id y_train !! tag = Some i ∧ id2tag y_train !! i = Some tag
       ∧ 0 ≤ i < num_tags y_train.
Proof.
  intros Hin%unique_tags_elem.
  destruct (dict_enumerate_mem 0 _ tag unique_tags_NoDup Hin) as [i Hi].
  exists i. split; [done|]. split.
  - unfold id2tag. apply dict_invert_lookup; [|done].
    intros k1 k2 c. apply dict_enumerate_inj, unique_tags_NoDup.
  - apply dict_enumerate_lookup in Hi as (j & Hj & ->); [|apply unique_tags_NoDup].
    rewrite num_tags_length. apply lookup_lt_Some in Hj. lia.
Qed.

Lemma id2tag_None (i : Z) :
  id2tag y_train !! i = None ↔ i < 0 ∨ num_tags y_train ≤ i.
Proof.
  unfold id2tag, tag2id. rewrite num_tags_length.
  rewrite dict_invert_enumerate_None by apply unique_tags_NoDup. lia.
Qed.

End tag_facts.

(** ** The claims about encoding and decoding *)

Section encoder_claims.

Import PyStr PyDict Keras Tokenization.

(** C10, as the code has it.  For the tokenizer fitted on any training
    texts: a word and its lowercase get the same ID, and every word gets
    one, from 1 to [vocab_size - 1]; the ID 1 belongs to the token [<OOV>]
    and every ID from 2 on to a lowercase form; an ID decodes to a lowercase
    form, to [<OOV>] (the ID 1) or to [<UNK>] (an ID that no word has); a
    word that comes back from encoding and decoding unchanged is lowercase
    or is [<OOV>] itself; a word of the training texts comes back as its
    lowercase. *)
Theorem C10_case_is_folded_and_sentinels_are_not :
  ∀ X_train : list (list string),
    let tk := word_tokenizer X_train in
    (∀ w : string,
       texts_to_sequences tk [[w]] = texts_to_sequences tk [[lower w]]
       ∧ ∃ i : Z, texts_to_sequences tk [[w]] = Some [[i]] ∧ 1 ≤ i < vocab_size tk)
    ∧ (∀ (i : Z) (w : string),
         index_word tk !! i = Some w →
         (i = 1 ∧ w = "<OOV>") ∨ (2 ≤ i ∧ lower w = w))
    ∧ (∀ i : Z, ∃ w : string,
         decoded_words tk [i] = [w]
         ∧ (lower w = w ∨ (w = "<OOV>" ∧ i = 1)
            ∨ (w = "<UNK>" ∧ (i < 1 ∨ vocab_size tk ≤ i))))
    ∧ (∀ (w : string) (i : Z),
         texts_to_sequences tk [[w]] = Some [[i]] →
         decoded_words tk [i] = [w] → lower w = w ∨ w = "<OOV>")
    ∧ (∀ (text : list string) (w : string),
         text ∈ X_train → w ∈ text →
         ∃ i : Z, texts_to_sequences tk [[w]] = Some [[i]] ∧ 2 ≤ i
                  ∧ decoded_words tk [i] = [lower w]).
Proof.
  intros X_train tk. subst tk. split_and!.
  - intros w. split.
    + by rewrite !texts_to_sequences_word, lower_idemp.
    + pose proof (vocab_size_ge_2 X_train).
      destruct (encode_word_cases X_train w) as [(c & Hc & ->) | [_ ->]].
      * exists c. split; [done|].
        destruct (word_index_cases X_train _ _ Hc) as [[-> _] | [Hr _]]; lia.
      * exists 1. split; [done|lia].
  - intros i w Hi%index_word_lookup.
    destruct (word_index_cases X_train _ _ Hi) as [[-> ->] | [Hr [Hl _]]].
    + by left.
    + right. split; [lia|done].
  - intros i.
    destruct (index_word (word_tokenizer X_train) !! i) as [w|] eqn:Hi.
    + exists w. split; [by apply decoded_word_Some|].
      apply index_word_lookup in Hi.
      destruct (word_index_cases X_train _ _ Hi) as [[-> ->] | [_ [Hl _]]]; auto.
    + exists "<UNK>". split; [by apply decoded_word_None|].
      apply index_word_None in Hi. auto.
  - intros w i Henc Hdec.
    destruct (encode_word_cases X_train w) as [(c & Hc & Hw) | [_ Hw]];
      rewrite Hw in Henc; injection Henc as <-.
    + apply index_word_lookup in Hc.
      rewrite (decoded_word_Some X_train _ _ Hc) in Hdec.
      injection Hdec as <-. left. apply lower_idemp.
    + pose proof (word_index_OOV X_train) as Hoov.
      apply index_word_lookup in Hoov.
      rewrite (decoded_word_Some X_train _ _ Hoov) in Hdec.
      injection Hdec as <-. by right.
  - intros text w Htext Hw.
    destruct (word_index_known X_train text w Htext Hw) as (c & Hc & Hr).
    exists c.
    destruct (encode_word_cases X_train w) as [(c' & Hc' & ->) | [Hn _]];
      [|congruence].
    assert (c' = c) as -> by congruence.
    apply index_word_lookup in Hc.
    split_and!; [done | lia | by apply decoded_word_Some].
Qed.

Lemma C10_case_is_folded_and_sentinels_are_not_witness :
  ∃ i : Z,
    texts_to_sequences (word_tokenizer [["The"; "cat"]]) [["The"]] = Some [[i]]
    ∧ 2 ≤ i
    ∧ decoded_words (word_tokenizer [["The"; "cat"]]) [i] = [lower "The"].
Proof.
  refine (proj2 (proj2 (proj2 (proj2
           (C10_case_is_folded_and_sentinels_are_not [["The"; "cat"]]))))
           ["The"; "cat"] "The" _ _).
  - apply list_elem_of_singleton. reflexivity.
  - apply elem_of_cons. left. reflexivity.
Defined.

(** C10, as the claim has it, fails on the two sentinel strings: the ID 1
    decodes to [<OOV>] and an ID outside the index to [<UNK>], neither of
    them lowercase, and the word [<OOV>] comes back from encoding and
    decoding unchanged although it is not lowercase. *)
Lemma C10_sentinels_are_not_lowercase :
  let tk := word_tokenizer [["the"]] in
  texts_to_sequences tk [["<OOV>"]] = Some [[1]]
  ∧ decoded_words tk [1] = ["<OOV>"]
  ∧ lower "<OOV>" = "<oov>"
  ∧ lower "<OOV>" ≠ "<OOV>"
  ∧ decoded_words tk [0] = ["<UNK>"]
  ∧ lower "<UNK>" ≠ "<UNK>".
Proof. split_and!; by vm_compute. Qed.

(** C8, as the code has it.  The decoding of the script never raises: a
    token ID below 1 or from [vocab_size] on (so also 0 and [vocab_size]
    themselves) decodes to the string [<UNK>], and so does a tag ID below 0
    or from [num_tags] on.  Only [Mapper.map_pos] raises: its [KeyError]
    comes exactly for an ID below 1 or above 18. *)
Theorem C8_decoding_substitutes_UNK_and_map_pos_raises :
  (∀ (X_train : list (list string)) (i : Z),
     i < 1 ∨ vocab_size (word_tokenizer X_train) ≤ i →
     decoded_words (word_tokenizer X_train) [i] = ["<UNK>"])
  ∧ (∀ (y_train : list (list string)) (i : Z),
     i < 0 ∨ num_tags y_train ≤ i →
     decoded_tags (id2tag y_train) [i] = ["<UNK>"])
  ∧ (∀ i : Z, Mapper.map_pos [i] = None ↔ i < 1 ∨ 18 < i)
  ∧ (∀ (targets : list Z) (i : Z),
     i ∈ targets → i < 1 ∨ 18 < i → Mapper.map_pos targets = None).
Proof.
  split_and!.
  - intros X_train i Hi. rewrite decoded_word.
    apply (index_word_None X_train) in Hi. by rewrite Hi.
  - intros y_train i Hi. unfold decoded_tags, get. simpl.
    apply (id2tag_None y_train) in Hi. by rewrite Hi.
  - intros i. rewrite <- pos_mapping_None. unfold Mapper.map_pos. simpl.
    destruct (Mapper.pos_mapping !! i); simpl; split; done.
  - intros targets i Hin Hi. unfold Mapper.map_pos. apply mapM_None.
    apply Exists_exists. exists i. split; [done|]. by apply pos_mapping_None.
Qed.

Lemma C8_decoding_substitutes_UNK_and_map_pos_raises_witness :
  decoded_words (word_tokenizer [["the"; "cat"]]) [99] = ["<UNK>"].
Proof.
  apply (proj1 C8_decoding_substitutes_UNK_and_map_pos_raises [["the"; "cat"]] 99).
  right. vm_compute. intros H. discriminate H.
Defined.

(** C8, as the claim has it, fails: with [vocab_size] 4 the token
    IDs 99 and -1 decode, without any error, to [<UNK>], and so does the tag
    ID 7 with a single tag. *)
Lemma C8_out_of_range_ids_decode_to_UNK :
  vocab_size (word_tokenizer [["the"; "cat"]]) = 4
  ∧ decoded_words (word_tokenizer [["the"; "cat"]]) [99; -1] = ["<UNK>"; "<UNK>"]
  ∧ num_tags [["DET"]] = 1
  ∧ decoded_tags (id2tag [["DET"]]) [7] = ["<UNK>"].
Proof. split_and!; by vm_compute. Qed.

(** C1, at a sentence of the training data with a capital letter.  The
    tokenizer is built with its default [lower=True], so the form [The] is
    encoded as [the] is and decoded as [the]: the decoded sentence is not
    the original one. *)
Theorem C1_capitals_do_not_come_back :
  let sent := [("The", "DET"); ("cat", "NOUN")] in
  encode_decode [sent] sent = Some (["the"; "cat"], ["DET"; "NOUN"])
  ∧ (["the"; "cat"], ["DET"; "NOUN"]) ≠ (sent.*1, sent.*2).
Proof. intros sent. split; by vm_compute. Qed.

End encoder_claims.

(** ** Encoding and decoding a whole sentence *)

Section round_trip.

Import PyStr PyDict Keras Tokenization.

Lemma elem_of_concat {A : Type} (x : A) (ls : list (list A)) :
  x ∈ concat ls ↔ ∃ l, l ∈ ls ∧ x ∈ l.
Proof.
  rewrite list_elem_of_In, in_concat. split.
  - intros (l & Hl & Hx). exists l. by rewrite !list_elem_of_In.
  - intros (l & Hl & Hx). exists l. by rewrite <- !list_elem_of_In.
Qed.

Lemma texts_to_sequences_total (X_train texts : list (list string)) :
  texts_to_sequences (word_tokenizer X_train) texts
  = Some ((fun text =>
             (fun w => default 1 (word_id (word_tokenizer X_train) w)) <$> text_seq text)
            <$> texts).
Proof.
  unfold texts_to_sequences. apply mapM_total, Forall_forall. intros text _.
  apply mapM_total, Forall_forall. intros w _.
  by destruct (word_id_cases X_train w) as [(c & _ & ->) | [_ ->]].
Qed.

Lemma decoded_known_words (X_train : list (list string)) (ws : list string) :
  Forall (fun w => ∃ text, text ∈ X_train ∧ w ∈ text) ws →
  decoded_words (word_tokenizer X_train)
    ((fun w => default 1 (word_id (word_tokenizer X_train) w)) <$> text_seq ws)
  = lower <$> ws.
Proof.
  induction 1 as [|w ws (text & Htext & Hw) _ IH]; [reflexivity|].
  unfold decoded_words, text_seq in *. rewrite !fmap_cons. f_equal; [|exact IH].
  destruct (word_index_known X_train text w Htext Hw) as (c & Hc & _).
  assert (Hid : word_id (word_tokenizer X_train) (lower w) = Some c).
  { unfold word_id. by rewrite Hc. }
  apply index_word_lookup in Hc. rewrite Hid. unfold get.
  change (default 1 (Some c)) with c. by rewrite Hc.
Qed.

Lemma tags_encoded (y_train : list (list string)) (tags : list string) :
  Forall (fun tag => ∃ ts, ts ∈ y_train ∧ tag ∈ ts) tags →
  mapM (fun tag => tag2id y_train !! tag) tags
  = Some ((fun tag => default 0 (tag2id y_train !! tag)) <$> tags)
  ∧ decoded_tags (id2tag y_train)
      ((fun tag => default 0 (tag2id y_train !! tag)) <$> tags) = tags.
Proof.
  intros Hall. split.
  - apply mapM_total. eapply Forall_impl; [exact Hall|].
    intros tag Htag%elem_of_concat.
    by destruct (tag2id_known y_train tag Htag) as (i & -> & _).
  - induction Hall as [|tag tags Htag%elem_of_concat _ IH]; [reflexivity|].
    unfold decoded_tags in *. rewrite !fmap_cons. f_equal; [|exact IH].
    destruct (tag2id_known y_train tag Htag) as (i & -> & Hi & _).
    unfold get. change (default 0 (Some i)) with i. by rewrite Hi.
Qed.

Lemma no_padding_padded (ids : list Z) (n : nat) :
  length ids = n → (n ≤ MAX_LEN)%nat →
  no_padding (take MAX_LEN ids ++ replicate (MAX_LEN - length ids) 0) n = ids.
Proof.
  intros Hlen Hle. unfold no_padding.
  rewrite (take_ge ids MAX_LEN) by lia. subst n. apply take_app_length.
Qed.

(** What encoding, padding, unpadding and decoding do to a sentence of at
    most [MAX_LEN] tokens whose forms and tags occur in the training data:
    the tags come back as they were and every form comes back in
    lowercase.  A sentence whose forms are all lowercase comes back
    unchanged. *)
Theorem encode_decode_lowers_the_forms :
  ∀ (train_data : list (list token)) (sent : list token),
    Forall (fun t : token =>
              (∃ text, text ∈ (split_words_tags train_data).1 ∧ t.1 ∈ text)
              ∧ (∃ tags, tags ∈ (split_words_tags train_data).2 ∧ t.2 ∈ tags))
           sent →
    (length sent ≤ MAX_LEN)%nat →
    encode_decode train_data sent = Some (lower <$> sent.*1, sent.*2)
    ∧ (Forall (fun t : token => lower t.1 = t.1) sent →
       encode_decode train_data sent = Some (sent.*1, sent.*2)).
Proof.
  intros train_data sent Hknown Hlen.
  assert (Hmain : encode_decode train_data sent = Some (lower <$> sent.*1, sent.*2)).
  { unfold encode_decode, encode_sentences_and_tags.
    set (X_train := (split_words_tags train_data).1) in *.
    set (y_train := (split_words_tags train_data).2) in *.
    change (split_words_tags train_data) with (X_train, y_train).
    cbv beta iota.
    assert (Hws : Forall (fun w => ∃ text, text ∈ X_train ∧ w ∈ text) sent.*1).
    { apply Forall_fmap. eapply Forall_impl; [exact Hknown|]. by intros t [? _]. }
    assert (Hts : Forall (fun tag => ∃ ts, ts ∈ y_train ∧ tag ∈ ts) sent.*2).
    { apply Forall_fmap. eapply Forall_impl; [exact Hknown|]. by intros t [_ ?]. }
    destruct (tags_encoded y_train sent.*2 Hts) as [Henc Hdec].
    rewrite texts_to_sequences_total.
    cbn [fmap list_fmap mbind option_bind mapM].
    rewrite Henc. cbn [mbind option_bind mret option_ret].
    rewrite !pad_total. cbn [fmap list_fmap mbind option_bind head].
    rewrite !no_padding_padded
      by first [exact Hlen | unfold text_seq; by rewrite !length_fmap].
    by rewrite decoded_known_words, Hdec. }
  split; [exact Hmain|].
  intros Hlow. rewrite Hmain. do 2 f_equal.
  clear -Hlow. induction Hlow as [|t sent' Ht _ IH]; [reflexivity|].
  rewrite !fmap_cons, Ht. by f_equal.
Qed.

Lemma encode_decode_lowers_the_forms_witness :
  encode_decode [[("The", "DET"); ("cat", "NOUN")]] [("cat", "NOUN"); ("The", "DET")]
  = Some (["cat"; "the"], ["NOUN"; "DET"]).
Proof.
  refine (proj1 (encode_decode_lowers_the_forms
            [[("The", "DET"); ("cat", "NOUN")]] [("cat", "NOUN"); ("The", "DET")] _ _)).
  - constructor; [|constructor; [|constructor]];
      (split; [exists ["The"; "cat"] | exists ["DET"; "NOUN"]]);
      (split; [apply list_elem_of_singleton; reflexivity|]);
      apply list_elem_of_In; simpl; tauto.
  - unfold MAX_LEN. simpl. lia.
Defined.

End round_trip.

(** ** UDReader.py *)

Section reader_facts.

Import PyStr UDReader.





End reader_facts.

(** ** The first scenario of the specification *)

Section scenario.

Import CoNLLU Samples.

(** The two lines [1 The _ DET ...] and [2 cat _ NOUN ...] followed by an
    empty line give one sentence, [The/DET cat/NOUN], and the mapper gives
    its tags the IDs 6 and 8. *)
Theorem the_cat_scenario :
  load_conllu_file (one_file the_cat) init "data.conllu" 128
  = (Loaded,
     {| sentences := [[("The", "DET"); ("cat", "NOUN")]];
        raw_sentences :=
          [[PyStr.strip (token_line "1" "The" "DET");
            PyStr.strip (token_line "2" "cat" "NOUN")]];
        removed_multiword_count := 0;
        removed_empty_nodes := 0;
        removed_long_sentences := 0;
        total_sentences_processed := 1;
        max_sentence_length := 128 |})
  ∧ Mapper.map_ids ["DET"; "NOUN"] = Some [6; 8].
Proof. split; by vm_compute. Qed.

End scenario.

(** * Further properties of the code *)

(** ** conllu_processor.py: what every load keeps *)

Section processor_invariants.

Import PyStr CoNLLU CoNLLUStats.

(** what [_parse_token_line] can do to [self] *)
Lemma parse_token_line_cases p line :
  (∃ t, _parse_token_line p line = (Some t, p))
  ∨ _parse_token_line p line = (None, p)
  ∨ _parse_token_line p line = (None, bump_multiword p)
  ∨ _parse_token_line p line = (None, bump_empty_nodes p).
Proof. unfold _parse_token_line. repeat case_match; eauto. Qed.

(** An induction rule for the line loop: [P] is kept by the two counters
    of excluded lines and by the completion of a non-empty sentence that
    satisfies [Q]; [Q] holds of the empty sentence and is kept when a parsed
    token is appended. *)
Lemma parse_conllu_content_invariant
    (P : CoNLLUProcessor → Prop) (Q : list token → Prop) :
  (∀ p, P p → P (bump_multiword p)) →
  (∀ p, P p → P (bump_empty_nodes p)) →
  (∀ p s r, P p → Q s → s ≠ [] → P (_process_completed_sentence p s r)) →
  Q [] →
  (∀ s p line t p', Q s → _parse_token_line p line = (Some t, p') → Q (s ++ [t])) →
  ∀ lines p, P p → P (_parse_conllu_content p lines).
Proof.
  intros Hmw Hen Hdone Hnil Happ lines p Hp.
  assert (Hstep : ∀ s line,
            P (self s) ∧ Q (current_sentence s) →
            P (self (scan_line s line)) ∧ Q (current_sentence (scan_line s line))).
  { intros [q cur raw] line [Hq Hcur]. unfold scan_line. simpl in *.
    destruct (truthy (strip line)); simpl.
    - destruct (startswith "#" (strip line)); simpl; [done|].
      destruct (parse_token_line_cases q (strip line))
        as [[t Ht] | [Ht | [Ht | Ht]]]; rewrite Ht; simpl; auto.
      split; [done|]. by eapply Happ.
    - destruct cur as [|t cur]; simpl; [done|]. split; [|done].
      by apply Hdone. }
  assert (Hfold : ∀ ls s,
            P (self s) ∧ Q (current_sentence s) →
            P (self (fold_left scan_line ls s))
            ∧ Q (current_sentence (fold_left scan_line ls s))).
  { induction ls as [|l ls IH]; intros s Hs; simpl; [done|]. by apply IH, Hstep. }
  unfold _parse_conllu_content, scan_end.
  destruct (Hfold lines {| self := p; current_sentence := [];
                           current_raw_sentence := [] |}) as [HP HQ]; [done|].
  destruct (current_sentence _); [done|].
  by apply Hdone.
Qed.

Lemma process_completed_sentence_balanced p s r :
  s ≠ [] → balanced p → balanced (_process_completed_sentence p s r).
Proof.
  intros Hs [Htot Hraw]. unfold _process_completed_sentence, balanced. simpl.
  destruct (max_sentence_length p <? Z.of_nat (length s)); simpl; [lia|].
  destruct (Z.ltb_spec 0 (Z.of_nat (length s))) as [_|Hlen]; simpl.
  - rewrite !length_app. simpl. lia.
  - destruct s; [done | simpl in Hlen; lia].
Qed.

Lemma load_conllu_file_balanced fs p filepath m :
  balanced p → balanced (load_conllu_file fs p filepath m).2.
Proof.
  intros Hb.
  assert (Hp : balanced (set_max_sentence_length m p)) by done.
  unfold load_conllu_file. destruct (fs !! filepath) as [text|]; simpl; [|done].
  apply (parse_conllu_content_invariant balanced (fun _ => True)); try done.
  intros q s r Hq _ Hs. by apply process_completed_sentence_balanced.
Qed.

(** Every sentence that the loop completes is counted once, and is then
    either kept or counted as too long: [total_sentences_processed] is the
    number of kept sentences plus [removed_long_sentences], and there is
    one list of raw lines for every kept sentence.  This holds after a load
    into a new processor, and it is kept by a load into any processor of
    which it holds. *)
Theorem processed_is_kept_plus_long :
  ∀ (fs : gmap string string) (p : CoNLLUProcessor) (filepath : string) (m : Z),
    total_sentences_processed p
      = Z.of_nat (length (sentences p)) + removed_long_sentences p →
    length (raw_sentences p) = length (sentences p) →
    let p' := (load_conllu_file fs p filepath m).2 in
    total_sentences_processed p'
      = Z.of_nat (length (sentences p')) + removed_long_sentences p'
    ∧ length (raw_sentences p') = length (sentences p').
Proof.
  intros fs p filepath m Htot Hraw p'. subst p'.
  by apply (load_conllu_file_balanced fs p filepath m).
Qed.

Lemma processed_is_kept_plus_long_witness :
  let p' := (load_conllu_file (Samples.one_file (Samples.token_lines 129)) init
               "data.conllu" 128).2 in
  total_sentences_processed p'
    = Z.of_nat (length (sentences p')) + removed_long_sentences p'
  ∧ length (raw_sentences p') = length (sentences p').
Proof.
  apply (processed_is_kept_plus_long
           (Samples.one_file (Samples.token_lines 129)) init "data.conllu" 128);
    reflexivity.
Defined.

Lemma split_no_sep (sep : ascii) (s : string) :
  Forall (fun w => contains sep w = false) (split sep s).
Proof.
  induction s as [|c s IH]; simpl.
  - by repeat constructor.
  - destruct (Ascii.eqb_spec c sep) as [->|Hne].
    + by constructor.
    + destruct (split sep s) as [|w ws]; inversion IH; subst;
        constructor; try done; simpl.
      * apply Ascii.eqb_neq in Hne. by rewrite Hne.
      * apply Ascii.eqb_neq in Hne. by rewrite Hne.
Qed.

Lemma nth_no_sep (sep : ascii) (s : string) (i : nat) :
  contains sep (nth i (split sep s) EmptyString) = false.
Proof.
  pose proof (split_no_sep sep s) as Hall.
  destruct (nth_in_or_default i (split sep s) EmptyString) as [Hin | ->]; [|done].
  rewrite Forall_forall in Hall. by apply Hall, list_elem_of_In.
Qed.

Lemma truthy_ne (s : string) : truthy s = true → s ≠ EmptyString.
Proof. by destruct s. Qed.

Lemma parse_token_line_kept p line t p' :
  _parse_token_line p line = (Some t, p') → kept_token t.
Proof.
  unfold _parse_token_line. repeat case_match; try discriminate.
  intros [= <- _]. unfold kept_token. simpl.
  match goal with H : _ || _ || _ = false |- _ =>
    apply orb_false_iff in H as [[Hf%negb_false_iff Hu%negb_false_iff]%orb_false_iff Hus]
  end.
  split_and!; [by apply truthy_ne | by apply truthy_ne | by apply String.eqb_neq
              | apply nth_no_sep | apply nth_no_sep].
Qed.

Lemma load_conllu_file_kept fs p filepath m :
  Forall (Forall kept_token) (sentences p) →
  Forall (Forall kept_token) (sentences (load_conllu_file fs p filepath m).2).
Proof.
  intros Hp.
  unfold load_conllu_file. destruct (fs !! filepath) as [text|]; simpl; [|done].
  apply (parse_conllu_content_invariant
           (fun q => Forall (Forall kept_token) (sentences q)) (Forall kept_token));
    try done.
  - intros q s r Hq Hs _. unfold _process_completed_sentence. simpl.
    repeat case_match; simpl; try done.
    apply Forall_app. split; [done|]. by apply Forall_singleton.
  - intros s q line t q' Hs Ht. apply Forall_app. split; [done|].
    apply Forall_singleton. by eapply parse_token_line_kept.
Qed.

Lemma load_conllu_file_within fs filepath m :
  within m (sentences (load_conllu_file fs init filepath m).2).
Proof.
  unfold load_conllu_file. destruct (fs !! filepath); simpl; [|constructor].
  apply (parse_conllu_content_within (set_max_sentence_length m init)).
  constructor.
Qed.

(** Every token of every sentence that a load adds has a form and a tag
    that are not empty and hold no tab character, and its tag is not the
    placeholder [_]. *)
Theorem kept_tokens_are_well_formed :
  ∀ (fs : gmap string string) (p : CoNLLUProcessor) (filepath : string) (m : Z),
    Forall (Forall (fun t : token =>
                      t.1 ≠ EmptyString ∧ t.2 ≠ EmptyString ∧ t.2 ≠ "_"
                      ∧ contains TAB t.1 = false ∧ contains TAB t.2 = false))
           (sentences p) →
    Forall (Forall (fun t : token =>
                      t.1 ≠ EmptyString ∧ t.2 ≠ EmptyString ∧ t.2 ≠ "_"
                      ∧ contains TAB t.1 = false ∧ contains TAB t.2 = false))
           (sentences (load_conllu_file fs p filepath m).2).
Proof. intros fs p filepath m. apply load_conllu_file_kept. Qed.

Lemma kept_tokens_are_well_formed_witness :
  Forall (Forall (fun t : token =>
                    t.1 ≠ EmptyString ∧ t.2 ≠ EmptyString ∧ t.2 ≠ "_"
                    ∧ contains TAB t.1 = false ∧ contains TAB t.2 = false))
         (sentences (load_conllu_file (Samples.one_file Samples.five_ids) init
                       "data.conllu" 128).2).
Proof.
  apply (kept_tokens_are_well_formed (Samples.one_file Samples.five_ids) init
           "data.conllu" 128).
  constructor.
Defined.

End processor_invariants.

(** ** conllu_processor.py: lines that do not count, and files in a row *)

Section processor_lines.

Import PyStr CoNLLU CoNLLUStats.

Lemma same_data_refl p : same_data p p.
Proof. by repeat split. Qed.

Lemma same_data_trans p q r : same_data p q → same_data q r → same_data p r.
Proof.
  intros (H1 & H2 & H3 & H4 & H5 & H6) (K1 & K2 & K3 & K4 & K5 & K6).
  unfold same_data. split_and!; congruence.
Qed.

Lemma same_data_process_completed_sentence p q s r r' :
  same_data p q →
  same_data (_process_completed_sentence p s r) (_process_completed_sentence q s r').
Proof.
  intros (H1 & H2 & H3 & H4 & H5 & H6).
  unfold _process_completed_sentence, same_data. simpl. rewrite H6.
  repeat case_match; simpl; split_and!; congruence.
Qed.

Lemma same_data_parse_token_line p q line :
  same_data p q →
  (_parse_token_line p line).1 = (_parse_token_line q line).1
  ∧ same_data (_parse_token_line p line).2 (_parse_token_line q line).2.
Proof.
  intros (H1 & H2 & H3 & H4 & H5 & H6).
  unfold _parse_token_line, same_data.
  repeat case_match; simpl; split_and!; congruence.
Qed.

(** the loop states agree on everything but the raw lines *)
Lemma same_data_scan_line s s' line :
  same_data (self s) (self s') → current_sentence s = current_sentence s' →
  same_data (self (scan_line s line)) (self (scan_line s' line))
  ∧ current_sentence (scan_line s line) = current_sentence (scan_line s' line).
Proof.
  destruct s as [p cur raw], s' as [q cur' raw']. simpl. intros Hpq <-.
  unfold scan_line. simpl.
  destruct (truthy (strip line)); simpl.
  - destruct (startswith "#" (strip line)); simpl; [done|].
    destruct (same_data_parse_token_line p q (strip line) Hpq) as [Ho Hd].
    destruct (_parse_token_line p (strip line)) as [o1 p1],
             (_parse_token_line q (strip line)) as [o2 q1].
    simpl in Ho, Hd. subst o2. by destruct o1.
  - destruct cur; simpl; [done|]. split; [|done].
    by apply same_data_process_completed_sentence.
Qed.

Lemma same_data_fold lines s s' :
  same_data (self s) (self s') → current_sentence s = current_sentence s' →
  same_data (self (fold_left scan_line lines s)) (self (fold_left scan_line lines s'))
  ∧ current_sentence (fold_left scan_line lines s)
    = current_sentence (fold_left scan_line lines s').
Proof.
  revert s s'. induction lines as [|l lines IH]; intros s s' Hd Hc; simpl; [done|].
  destruct (same_data_scan_line s s' l Hd Hc). by apply IH.
Qed.

Lemma same_data_scan_end s s' :
  same_data (self s) (self s') → current_sentence s = current_sentence s' →
  same_data (scan_end s) (scan_end s').
Proof.
  intros Hd Hc. unfold scan_end. rewrite <- Hc.
  destruct (current_sentence s); [done|].
  by apply same_data_process_completed_sentence.
Qed.

(** a comment line and a line without ten columns leave [self] and the
    current sentence as they are *)
Lemma scan_line_skipped s line :
  skipped_line line = true →
  self (scan_line s line) = self s
  ∧ current_sentence (scan_line s line) = current_sentence s.
Proof.
  unfold skipped_line, scan_line. intros [Ht Hs]%andb_true_iff. rewrite Ht. simpl.
  destruct (startswith "#" (strip line)); simpl; [done|].
  simpl in Hs. unfold _parse_token_line. by rewrite Hs.
Qed.

(** Comment lines and lines that do not split into ten columns are of no
    consequence: with these lines taken out of the input, the processor
    ends with the same sentences, the same four counters and the same
    limit. *)
Theorem comments_and_short_lines_do_not_count :
  ∀ (p : CoNLLUProcessor) (lines : list string),
    let p1 := _parse_conllu_content p lines in
    let p2 := _parse_conllu_content p
                (List.filter (fun line => negb (skipped_line line)) lines) in
    sentences p1 = sentences p2
    ∧ removed_multiword_count p1 = removed_multiword_count p2
    ∧ removed_empty_nodes p1 = removed_empty_nodes p2
    ∧ removed_long_sentences p1 = removed_long_sentences p2
    ∧ total_sentences_processed p1 = total_sentences_processed p2
    ∧ max_sentence_length p1 = max_sentence_length p2.
Proof.
  intros p lines p1 p2. subst p1 p2.
  change (same_data (_parse_conllu_content p lines)
            (_parse_conllu_content p
               (List.filter (fun line => negb (skipped_line line)) lines))).
  unfold _parse_conllu_content.
  set (s0 := {| self := p; current_sentence := []; current_raw_sentence := [] |}).
  assert (Hgen : ∀ ls s s',
            same_data (self s) (self s') → current_sentence s = current_sentence s' →
            same_data (self (fold_left scan_line ls s))
              (self (fold_left scan_line
                       (List.filter (fun line => negb (skipped_line line)) ls) s'))
            ∧ current_sentence (fold_left scan_line ls s)
              = current_sentence
                  (fold_left scan_line
                     (List.filter (fun line => negb (skipped_line line)) ls) s')).
  { induction ls as [|l ls IH]; intros s s' Hd Hc; simpl; [done|].
    destruct (skipped_line l) eqn:Hl; simpl.
    - destruct (scan_line_skipped s l Hl) as [Hself Hcur].
      apply IH; [by rewrite Hself | by rewrite Hcur].
    - destruct (same_data_scan_line s s' l Hd Hc). by apply IH. }
  destruct (Hgen lines s0 s0 (same_data_refl p) eq_refl).
  by apply same_data_scan_end.
Qed.

(** One input in which an empty line stands between two runs of lines is
    two inputs in a row: parsing the whole gives the same sentences, in the
    same order, and the same counters as parsing the first run and then,
    with the same processor, the second. *)
Theorem lines_split_at_an_empty_line :
  ∀ (p : CoNLLUProcessor) (lines1 lines2 : list string) (empty : string),
    strip empty = EmptyString →
    let whole := _parse_conllu_content p (lines1 ++ empty :: lines2) in
    let in_turn := _parse_conllu_content (_parse_conllu_content p lines1) lines2 in
    sentences whole = sentences in_turn
    ∧ removed_multiword_count whole = removed_multiword_count in_turn
    ∧ removed_empty_nodes whole = removed_empty_nodes in_turn
    ∧ removed_long_sentences whole = removed_long_sentences in_turn
    ∧ total_sentences_processed whole = total_sentences_processed in_turn
    ∧ max_sentence_length whole = max_sentence_length in_turn.
Proof.
  intros p lines1 lines2 empty Hempty whole in_turn. subst whole in_turn.
  change (same_data (_parse_conllu_content p (lines1 ++ empty :: lines2))
            (_parse_conllu_content (_parse_conllu_content p lines1) lines2)).
  unfold _parse_conllu_content at 1 3.
  rewrite fold_left_app. simpl.
  set (s1 := fold_left scan_line lines1 _).
  assert (Hnext : same_data (self (scan_line s1 empty)) (scan_end s1)
                  ∧ current_sentence (scan_line s1 empty) = []).
  { unfold scan_line, scan_end. rewrite Hempty. simpl.
    destruct (current_sentence s1) eqn:Hcur; simpl; [|split; [apply same_data_refl|done]].
    split; [apply same_data_refl | done]. }
  destruct Hnext as [Hd Hc].
  unfold _parse_conllu_content.
  destruct (same_data_fold lines2 (scan_line s1 empty)
              {| self := scan_end s1; current_sentence := [];
                 current_raw_sentence := [] |} Hd Hc).
  by apply same_data_scan_end.
Qed.

Lemma lines_split_at_an_empty_line_witness :
  sentences (_parse_conllu_content init
               (readlines Samples.the_cat ++ EmptyString :: readlines Samples.five_ids))
  = sentences (_parse_conllu_content
                 (_parse_conllu_content init (readlines Samples.the_cat))
                 (readlines Samples.five_ids)).
Proof.
  apply (lines_split_at_an_empty_line init (readlines Samples.the_cat)
           (readlines Samples.five_ids) EmptyString).
  reflexivity.
Defined.

End processor_lines.

(** ** conllu_processor.py: the fate of a token line *)

Section line_fate.

Import PyStr CoNLLU CoNLLUStats.

Lemma all_digits_plain (token_id : string) :
  all_digits token_id = true →
  contains "-" token_id = false ∧ contains "." token_id = false
  ∧ startswith "#" token_id = false.
Proof.
  intros Hd. split_and!.
  - induction token_id as [|c s IH]; [done|]. simpl in *.
    apply andb_true_iff in Hd as [Hc Hs]. rewrite (IH Hs), orb_false_r.
    destruct c as [[] [] [] [] [] [] [] []]; done.
  - induction token_id as [|c s IH]; [done|]. simpl in *.
    apply andb_true_iff in Hd as [Hc Hs]. rewrite (IH Hs), orb_false_r.
    destruct c as [[] [] [] [] [] [] [] []]; done.
  - destruct token_id as [|c s]; [done|]. simpl in *.
    apply andb_true_iff in Hd as [Hc _].
    destruct c as [[] [] [] [] [] [] [] []]; done.
Qed.

(** What the loop does with a stripped line of ten columns whose ID holds
    no hyphen and does not start with [#].  If the ID holds a dot, the line
    adds one to [removed_empty_nodes] and nothing else changes.  Otherwise,
    if FORM and UPOS are not empty and UPOS is not [_], the pair
    [(form, upos)] is appended to the current sentence and no counter
    changes; and if FORM is empty, or UPOS is empty or [_], the line is
    dropped without a trace: no counter changes and nothing is appended.
    An ID made of digits only holds no hyphen and no dot and does not start
    with [#], so such a line is never counted as multiword or empty node. *)
Theorem fate_of_a_token_line :
  (∀ (s : scan) (raw_line token_id form lemma upos : string) (rest : list string),
     split TAB (strip raw_line) = token_id :: form :: lemma :: upos :: rest →
     length rest = 6%nat →
     contains "-" token_id = false →
     startswith "#" token_id = false →
     (contains "." token_id = true →
        scan_line s raw_line =
          {| self := bump_empty_nodes (self s);
             current_sentence := current_sentence s;
             current_raw_sentence := current_raw_sentence s |})
     ∧ (contains "." token_id = false →
        form ≠ EmptyString → upos ≠ EmptyString → upos ≠ "_" →
        scan_line s raw_line =
          {| self := self s;
             current_sentence := current_sentence s ++ [(form, upos)];
             current_raw_sentence := current_raw_sentence s ++ [strip raw_line] |})
     ∧ (contains "." token_id = false →
        form = EmptyString ∨ upos = EmptyString ∨ upos = "_" →
        scan_line s raw_line =
          {| self := self s;
             current_sentence := current_sentence s;
             current_raw_sentence := current_raw_sentence s |}))
  ∧ (∀ token_id : string,
       all_digits token_id = true →
       contains "-" token_id = false ∧ contains "." token_id = false
       ∧ startswith "#" token_id = false).
Proof.
  split; [|apply all_digits_plain].
  intros s raw_line token_id form lemma upos rest Hsplit Hlen Hhy Hhash.
  rewrite (scan_line_fields s raw_line _ _ _ _ _ Hsplit Hlen Hhash).
  rewrite (parse_token_line_fields (self s) _ _ _ _ _ _ Hsplit Hlen).
  unfold _is_multiword_token, _is_empty_node. rewrite Hhy. simpl.
  split_and!.
  - by intros ->.
  - intros -> Hform Hupos Hus.
    rewrite (truthy_true form Hform), (truthy_true upos Hupos). simpl.
    by apply String.eqb_neq in Hus as ->.
  - intros -> [-> | [-> | ->]]; simpl; [done | by rewrite orb_true_r | ].
    by destruct (truthy form).
Qed.

Lemma fate_of_a_token_line_witness :
  scan_line {| self := init; current_sentence := []; current_raw_sentence := [] |}
    (Samples.token_line "17" "" "NOUN")
  = {| self := init; current_sentence := []; current_raw_sentence := [] |}.
Proof.
  refine (proj2 (proj2 (proj1 fate_of_a_token_line
            {| self := init; current_sentence := []; current_raw_sentence := [] |}
            (Samples.token_line "17" "" "NOUN") "17" "" "_" "NOUN"
            ["_"; "_"; "_"; "_"; "_"; "_"] _ _ _ _)) _ _).
  - vm_compute. reflexivity.
  - reflexivity.
  - reflexivity.
  - reflexivity.
  - reflexivity.
  - left. reflexivity.
Defined.

End line_fate.

(** ** conllu_processor.py: the statistics *)

Section statistics_facts.

Import PyStr CoNLLU CoNLLUStats.

Context `{Countable K}.

Lemma counter_total_insert_fresh (k : K) (n : Z) (counts : gmap K Z) :
  counts !! k = None → counter_total (<[k:=n]> counts) = counter_total counts + n.
Proof.
  intros Hk. unfold counter_total. rewrite map_fold_insert_L; [done| |done].
  intros. lia.
Qed.

Lemma counter_total_add (k : K) (counts : gmap K Z) :
  counter_total (counter_add k counts) = counter_total counts + 1.
Proof.
  unfold counter_add. destruct (counts !! k) as [n|] eqn:Hk; simpl.
  - rewrite <- insert_delete_eq.
    rewrite counter_total_insert_fresh by apply lookup_delete_eq.
    rewrite <- (insert_delete_id counts k n Hk) at 2.
    rewrite counter_total_insert_fresh by apply lookup_delete_eq. lia.
  - by rewrite counter_total_insert_fresh.
Qed.

Lemma counter_add_is_Some (k k' : K) (counts : gmap K Z) :
  is_Some (counter_add k counts !! k') ↔ k = k' ∨ is_Some (counts !! k').
Proof.
  unfold counter_add. destruct (decide (k = k')) as [->|Hne].
  - rewrite lookup_insert_eq. split; [by left | by eexists].
  - rewrite lookup_insert_ne by done. split; [by right | by intros [? | ?]].
Qed.

Lemma counter_add_positive (k : K) (counts : gmap K Z) :
  (∀ k' n, counts !! k' = Some n → 1 ≤ n) →
  ∀ k' n, counter_add k counts !! k' = Some n → 1 ≤ n.
Proof.
  intros Hpos k' n. unfold counter_add. destruct (decide (k = k')) as [->|Hne].
  - rewrite lookup_insert_eq. intros [= <-].
    destruct (counts !! k') as [n'|] eqn:Hk'; simpl; [|lia].
    pose proof (Hpos k' n' Hk'). lia.
  - rewrite lookup_insert_ne by done. apply Hpos.
Qed.

(** counting the keys [f x] of the elements of a list *)
Lemma fold_counter {A : Type} (f : A → K) (l : list A) (counts : gmap K Z) :
  let counts' := fold_left (fun c x => counter_add (f x) c) l counts in
  counter_total counts' = counter_total counts + Z.of_nat (length l)
  ∧ (∀ k, is_Some (counts' !! k) ↔ (∃ x, x ∈ l ∧ f x = k) ∨ is_Some (counts !! k))
  ∧ ((∀ k n, counts !! k = Some n → 1 ≤ n) → ∀ k n, counts' !! k = Some n → 1 ≤ n).
Proof.
  revert counts. induction l as [|x l IH]; intros counts; simpl.
  - split_and!; [lia | | done]. intros k. split; [by right|].
    intros [(x & Hx & _) | Hk]; [by apply elem_of_nil in Hx | done].
  - destruct (IH (counter_add (f x) counts)) as (Htot & Hkeys & Hpos).
    split_and!.
    + rewrite Htot, counter_total_add. lia.
    + intros k. rewrite Hkeys, counter_add_is_Some. split.
      * intros [(y & Hy & Hfy) | [Hfx | Hk]].
        -- left. exists y. rewrite elem_of_cons. auto.
        -- left. exists x. rewrite elem_of_cons. auto.
        -- by right.
      * intros [(y & Hy & Hfy) | Hk]; [|by right; right].
        apply elem_of_cons in Hy as [-> | Hy]; [by right; left|].
        left. by exists y.
    + intros Hc. apply Hpos. by apply counter_add_positive.
Qed.

(** counting over the tokens of all sentences *)
Lemma fold_fold_counter (f : token → K) (ss : list (list token)) (counts : gmap K Z) :
  let counts' :=
    fold_left (fun c sentence => fold_left (fun c t => counter_add (f t) c) sentence c)
      ss counts in
  counter_total counts'
    = counter_total counts + fold_left (fun acc sent => acc + Z.of_nat (length sent)) ss 0
  ∧ (∀ k, is_Some (counts' !! k)
          ↔ (∃ sent t, sent ∈ ss ∧ t ∈ sent ∧ f t = k) ∨ is_Some (counts !! k))
  ∧ ((∀ k n, counts !! k = Some n → 1 ≤ n) → ∀ k n, counts' !! k = Some n → 1 ≤ n).
Proof.
  assert (Hsum : ∀ (l : list (list token)) a,
            fold_left (fun acc sent => acc + Z.of_nat (length sent)) l a
            = a + fold_left (fun acc sent => acc + Z.of_nat (length sent)) l 0).
  { induction l as [|s l IHl]; intros a; simpl; [lia|].
    rewrite (IHl (a + _)), (IHl (0 + _)). lia. }
  revert counts. induction ss as [|s ss IH]; intros counts; simpl.
  - split_and!; [lia | | done]. intros k. split; [by right|].
    intros [(x & t & Hx & _) | Hk]; [by apply elem_of_nil in Hx | done].
  - destruct (fold_counter f s counts) as (Htot1 & Hkeys1 & Hpos1).
    destruct (IH (fold_left (fun c t => counter_add (f t) c) s counts))
      as (Htot & Hkeys & Hpos).
    split_and!.
    + rewrite Htot, Htot1, (Hsum ss (0 + _)). lia.
    + intros k. rewrite Hkeys, Hkeys1. split.
      * intros [(sent & t & Hsent & Ht & Hft) | [(t & Ht & Hft) | Hk]].
        -- left. exists sent, t. rewrite elem_of_cons. auto.
        -- left. exists s, t. rewrite elem_of_cons. auto.
        -- by right.
      * intros [(sent & t & Hsent & Ht & Hft) | Hk]; [|by right; right].
        apply elem_of_cons in Hsent as [-> | Hsent]; [right; left; by exists t|].
        left. by exists sent, t.
    + intros Hc. apply Hpos. by apply Hpos1.
Qed.

End statistics_facts.

Section statistics_claims.

Import PyStr CoNLLU CoNLLUStats.

(** The three statistics agree with the corpus and with each other.  The
    counts of [get_vocabulary] add up to the number of tokens of all kept
    sentences, and so do the counts of [get_pos_tags]; the counts of
    [get_sentence_length_distribution] add up to the number of kept
    sentences.  The keys are exactly the forms, the tags and the lengths
    that occur, and every count is at least 1. *)
Theorem statistics_add_up :
  ∀ p : CoNLLUProcessor,
    counter_total (get_vocabulary p) = total_tokens p
    ∧ counter_total (get_pos_tags p) = total_tokens p
    ∧ counter_total (get_sentence_length_distribution p)
      = Z.of_nat (length (sentences p))
    ∧ (∀ w : string,
         is_Some (get_vocabulary p !! w)
         ↔ ∃ sent t, sent ∈ sentences p ∧ t ∈ sent ∧ t.1 = w)
    ∧ (∀ tag : string,
         is_Some (get_pos_tags p !! tag)
         ↔ ∃ sent t, sent ∈ sentences p ∧ t ∈ sent ∧ t.2 = tag)
    ∧ (∀ n : Z,
         is_Some (get_sentence_length_distribution p !! n)
         ↔ ∃ sent, sent ∈ sentences p ∧ Z.of_nat (length sent) = n)
    ∧ (∀ (w : string) (n : Z), get_vocabulary p !! w = Some n → 1 ≤ n)
    ∧ (∀ (tag : string) (n : Z), get_pos_tags p !! tag = Some n → 1 ≤ n)
    ∧ (∀ n c : Z, get_sentence_length_distribution p !! n = Some c → 1 ≤ c).
Proof.
  intros p.
  assert (He : ∀ `{Countable K} (k : K), ¬ is_Some ((∅ : gmap K Z) !! k)).
  { intros K ? ? k. rewrite lookup_empty. by intros [? ?]. }
  assert (Ht : ∀ `{Countable K}, counter_total (∅ : gmap K Z) = 0).
  { intros. unfold counter_total. apply map_fold_empty. }
  destruct (fold_fold_counter (fun t : token => t.1) (sentences p) ∅)
    as (Hv1 & Hv2 & Hv3).
  destruct (fold_fold_counter (fun t : token => t.2) (sentences p) ∅)
    as (Hp1 & Hp2 & Hp3).
  destruct (fold_counter (fun sent : list token => Z.of_nat (length sent))
              (sentences p) ∅) as (Hl1 & Hl2 & Hl3).
  unfold get_vocabulary, get_pos_tags, get_sentence_length_distribution, total_tokens.
  cbv beta in *. split_and!.
  - etrans; [apply Hv1|]. rewrite Ht. lia.
  - etrans; [apply Hp1|]. rewrite Ht. lia.
  - etrans; [apply Hl1|]. rewrite Ht. lia.
  - intros w. etrans; [apply Hv2|]. pose proof (He _ _ _ w). tauto.
  - intros tag. etrans; [apply Hp2|]. pose proof (He _ _ _ tag). tauto.
  - intros n. etrans; [apply Hl2|]. pose proof (He _ _ _ n). tauto.
  - apply Hv3. intros k n. by rewrite lookup_empty.
  - apply Hp3. intros k n. by rewrite lookup_empty.
  - apply Hl3. intros k n. by rewrite lookup_empty.
Qed.

End statistics_claims.

Section loaded_statistics.

Import PyStr CoNLLU CoNLLUStats.

Lemma total_tokens_bounds (m : Z) (ss : list (list token)) :
  within m ss →
  Z.of_nat (length ss) ≤ fold_left (fun acc sent => acc + Z.of_nat (length sent)) ss 0
  ∧ fold_left (fun acc sent => acc + Z.of_nat (length sent)) ss 0
    ≤ m * Z.of_nat (length ss).
Proof.
  assert (Hgen : ∀ a, within m ss →
            a + Z.of_nat (length ss)
              ≤ fold_left (fun acc sent => acc + Z.of_nat (length sent)) ss a
            ∧ fold_left (fun acc sent => acc + Z.of_nat (length sent)) ss a
              ≤ a + m * Z.of_nat (length ss)).
  { intros a Hw. revert a. induction Hw as [|s ss Hs _ IH]; intros a; simpl; [lia|].
    destruct (IH (a + Z.of_nat (length s))). nia. }
  intros Hw. destruct (Hgen 0 Hw). lia.
Qed.

(** The statistics of a file loaded into a new processor with the limit
    [m]: every length of the length distribution lies between 1 and [m],
    no key of [get_pos_tags] is empty or the placeholder [_], no key of
    [get_vocabulary] is empty, and the number of tokens lies between the
    number of kept sentences and [m] times that number. *)
Theorem statistics_of_a_loaded_file :
  ∀ (fs : gmap string string) (filepath : string) (m : Z),
    let p := (load_conllu_file fs init filepath m).2 in
    (∀ n c : Z, get_sentence_length_distribution p !! n = Some c → 1 ≤ n ≤ m)
    ∧ (∀ (tag : string) (c : Z),
         get_pos_tags p !! tag = Some c → tag ≠ EmptyString ∧ tag ≠ "_")
    ∧ (∀ (w : string) (c : Z), get_vocabulary p !! w = Some c → w ≠ EmptyString)
    ∧ Z.of_nat (length (sentences p)) ≤ total_tokens p
    ∧ total_tokens p ≤ m * Z.of_nat (length (sentences p)).
Proof.
  intros fs filepath m p.
  pose proof (load_conllu_file_within fs filepath m) as Hw.
  pose proof (load_conllu_file_kept fs init filepath m ltac:(constructor)) as Hk.
  fold p in Hw, Hk.
  assert (Hkt : ∀ sent t, sent ∈ sentences p → t ∈ sent → kept_token t).
  { intros sent t Hs Ht. rewrite Forall_forall in Hk.
    pose proof (Hk sent Hs) as Hsent. rewrite Forall_forall in Hsent. by apply Hsent. }
  destruct (fold_fold_counter (fun t : token => t.1) (sentences p) ∅) as (_ & Hv & _).
  destruct (fold_fold_counter (fun t : token => t.2) (sentences p) ∅) as (_ & Hp & _).
  destruct (fold_counter (fun sent : list token => Z.of_nat (length sent))
              (sentences p) ∅) as (_ & Hl & _).
  cbv beta in *. split_and!.
  - intros n c Hn.
    destruct (proj1 (Hl n)) as [(sent & Hs & <-) | [? He]];
      [by eexists | | by rewrite lookup_empty in He].
    unfold within in Hw. rewrite Forall_forall in Hw. by apply Hw.
  - intros tag c Htag.
    destruct (proj1 (Hp tag)) as [(sent & t & Hs & Ht & <-) | [? He]];
      [by eexists | | by rewrite lookup_empty in He].
    destruct (Hkt sent t Hs Ht) as (_ & H2 & H3 & _). done.
  - intros w c Hw'.
    destruct (proj1 (Hv w)) as [(sent & t & Hs & Ht & <-) | [? He]];
      [by eexists | | by rewrite lookup_empty in He].
    by destruct (Hkt sent t Hs Ht) as (H1 & _).
  - apply (total_tokens_bounds m (sentences p) Hw).
  - apply (total_tokens_bounds m (sentences p) Hw).
Qed.

End loaded_statistics.

(** ** The tokenizer: counts, order of the indices, shape of the sequences *)

Section tokenizer_counts.

Import PyStr PyDict Keras Tokenization Counts.

Lemma occurrences_cons (k w : string) (ws : list string) :
  occurrences k (w :: ws) = (if String.eqb w k then 1 else 0) + occurrences k ws.
Proof.
  unfold occurrences. rewrite filter_cons.
  destruct (String.eqb_spec w k) as [->|Hne].
  - rewrite decide_True by done. simpl length. lia.
  - rewrite decide_False by done. lia.
Qed.

Lemma occurrences_app (k : string) (ws1 ws2 : list string) :
  occurrences k (ws1 ++ ws2) = occurrences k ws1 + occurrences k ws2.
Proof. unfold occurrences. rewrite filter_app, length_app. lia. Qed.

Lemma counted_not_key (k : string) (wc : list (string * Z)) :
  k ∉ wc.*1 → counted k wc = 0.
Proof.
  induction wc as [|[k' n] wc IH]; simpl; [done|].
  rewrite not_elem_of_cons. intros [Hne Hk].
  destruct (String.eqb_spec k' k) as [->|_]; [done|]. by apply IH.
Qed.

Lemma counted_count_word (k w : string) (wc : list (string * Z)) :
  counted k (count_word w wc) = (if String.eqb w k then 1 else 0) + counted k wc.
Proof.
  induction wc as [|[k' n] wc IH]; simpl.
  - by destruct (String.eqb w k).
  - destruct (String.eqb_spec k' w) as [->|Hne]; simpl.
    + destruct (String.eqb_spec w k) as [->|Hne']; lia.
    + destruct (String.eqb_spec k' k) as [->|Hne']; simpl.
      * destruct (String.eqb_spec w k) as [->|_]; [done|lia].
      * apply IH.
Qed.

Lemma counted_count_seq (k : string) (seq : list string) (wc : list (string * Z)) :
  counted k (count_seq seq wc) = occurrences k seq + counted k wc.
Proof.
  unfold count_seq. revert wc. induction seq as [|w seq IH]; intros wc; simpl.
  - unfold occurrences. simpl. lia.
  - rewrite IH, counted_count_word, occurrences_cons. lia.
Qed.

Lemma counted_count_texts (k : string) (texts : list (list string))
    (wc : list (string * Z)) :
  counted k (count_texts texts wc) = occurrences k (lowered_words texts) + counted k wc.
Proof.
  unfold count_texts, lowered_words. revert wc.
  induction texts as [|text texts IH]; intros wc; simpl.
  - unfold occurrences. simpl. lia.
  - rewrite IH, counted_count_seq, fmap_app, occurrences_app.
    unfold text_seq. lia.
Qed.

(** with pairwise distinct keys, an entry is the count of its key *)
Lemma counted_entry (k : string) (n : Z) (wc : list (string * Z)) :
  NoDup wc.*1 → (k, n) ∈ wc → counted k wc = n.
Proof.
  induction wc as [|[k' n'] wc IH]; simpl.
  - intros _ Hin. by apply elem_of_nil in Hin.
  - intros [Hk' Hnd]%NoDup_cons [[= -> ->] | Hin]%elem_of_cons.
    + by rewrite String.eqb_refl.
    + destruct (String.eqb_spec k' k) as [->|_]; [|by apply IH].
      exfalso. apply Hk'. apply list_elem_of_fmap. by exists (k, n).
Qed.

Lemma insert_desc_sorted (x : string * Z) (l : list (string * Z)) :
  StronglySorted (fun a b : string * Z => b.2 ≤ a.2) l →
  StronglySorted (fun a b : string * Z => b.2 ≤ a.2) (insert_desc x l).
Proof.
  induction 1 as [|y l Hl IH Hy]; simpl.
  - repeat constructor.
  - destruct (Z.ltb_spec x.2 y.2) as [Hlt|Hge].
    + constructor; [exact IH|].
      rewrite insert_desc_Permutation. constructor; [lia|done].
    + constructor; [by constructor|]. constructor; [lia|].
      eapply Forall_impl; [exact Hy|]. simpl. intros z Hz. lia.
Qed.

Lemma sort_desc_sorted (l : list (string * Z)) :
  StronglySorted (fun a b : string * Z => b.2 ≤ a.2) (sort_desc l).
Proof.
  unfold sort_desc. induction l as [|x l IH]; simpl; [constructor|].
  by apply insert_desc_sorted.
Qed.

Lemma sorted_lookup (l : list (string * Z)) (i j : nat) (a b : string * Z) :
  StronglySorted (fun a b : string * Z => b.2 ≤ a.2) l →
  (i < j)%nat → l !! i = Some a → l !! j = Some b → b.2 ≤ a.2.
Proof.
  intros Hs. revert i j. induction Hs as [|y l Hl IH Hy]; intros i j Hij Hi Hj.
  - by rewrite lookup_nil in Hi.
  - destruct j as [|j]; [lia|]. simpl in Hj. destruct i as [|i]; simpl in Hi.
    + injection Hi as <-. rewrite Forall_forall in Hy.
      apply Hy. by eapply list_elem_of_lookup_2.
    + apply (IH i j); [lia|done..].
Qed.

Variable X_train : list (list string).

Local Abbreviation tk := (word_tokenizer X_train).

Lemma word_counts_fit : word_counts tk = count_texts X_train [].
Proof. reflexivity. Qed.

Lemma word_counts_NoDup : NoDup (word_counts tk).*1.
Proof. rewrite word_counts_fit. apply count_texts_NoDup. constructor. Qed.

Lemma word_counts_entry (k : string) (n : Z) :
  (k, n) ∈ word_counts tk → n = occurrences k (lowered_words X_train).
Proof.
  intros Hin. rewrite <- (counted_entry k n _ word_counts_NoDup Hin).
  rewrite word_counts_fit, counted_count_texts. simpl. lia.
Qed.

(** the word with the index [c >= 2] is the entry at place [c - 2] of the
    sorted counts *)
Lemma word_index_place (k : string) (c : Z) :
  word_index tk !! k = Some c → 2 ≤ c →
  ∃ n, sort_desc (count_texts X_train []) !! Z.to_nat (c - 2) = Some (k, n).
Proof.
  rewrite word_index_fit. intros Hk Hc.
  apply dict_enumerate_lookup in Hk as (i & Hi & ->); [|apply voc_NoDup].
  destruct i as [|i]; [lia|]. simpl in Hi.
  rewrite list_lookup_fmap in Hi.
  replace (Z.to_nat (1 + Z.of_nat (S i) - 2)) with i by lia.
  destruct (sort_desc (count_texts X_train []) !! i) as [[k' n]|]; [|done].
  simpl in Hi. injection Hi as ->. by exists n.
Qed.

End tokenizer_counts.

Section tokenizer_claims.

Import PyStr PyDict Keras Tokenization Counts.

Lemma lowered_words_elem (X_train : list (list string)) (k : string) :
  k ∈ lowered_words X_train ↔ k ∈ (count_texts X_train []).*1.
Proof.
  rewrite counted_words. unfold lowered_words. rewrite list_elem_of_fmap. split.
  - intros (w & -> & (text & Htext & Hw)%elem_of_concat). by exists text, w.
  - intros (text & w & Htext & Hw & ->). exists w. split; [done|].
    apply elem_of_concat. by exists text.
Qed.

Lemma occurrences_pos (k : string) (ws : list string) :
  k ∈ ws → 1 ≤ occurrences k ws.
Proof.
  intros Hk. unfold occurrences.
  assert (Hin : k ∈ filter (fun w => w = k) ws) by (by apply list_elem_of_filter).
  destruct (filter (fun w => w = k) ws); [by apply elem_of_nil in Hin|].
  simpl length. lia.
Qed.

(** [fit_on_texts] counts every lowered word of the training texts
    exactly: [word_counts] has one entry for every such word, and the entry
    is the number of times the word occurs.  The indices follow the counts:
    of two words, the one with the smaller index occurs at least as often
    as the other, so the most frequent words have the smallest indices
    after the index 1 of the OOV token. *)
Theorem indices_follow_the_counts :
  ∀ X_train : list (list string),
    let tk := word_tokenizer X_train in
    (∀ (k : string) (n : Z),
       (k, n) ∈ word_counts tk →
       n = occurrences k (lowered_words X_train) ∧ 1 ≤ n)
    ∧ (∀ k : string,
         k ∈ lowered_words X_train → ∃ n, (k, n) ∈ word_counts tk)
    ∧ (∀ (w1 w2 : string) (c1 c2 : Z),
         word_index tk !! w1 = Some c1 → word_index tk !! w2 = Some c2 →
         2 ≤ c1 → c1 < c2 →
         occurrences w2 (lowered_words X_train)
           ≤ occurrences w1 (lowered_words X_train)).
Proof.
  intros X_train tk. subst tk. split_and!.
  - intros k n Hin. pose proof (word_counts_entry X_train k n Hin) as ->.
    split; [done|]. apply occurrences_pos, lowered_words_elem.
    apply list_elem_of_fmap. by eexists (k, _).
  - intros k Hk%lowered_words_elem.
    apply list_elem_of_fmap in Hk as ([k' n] & -> & Hin). by exists n.
  - intros w1 w2 c1 c2 H1 H2 Hc1 Hlt.
    destruct (word_index_place X_train w1 c1 H1 Hc1) as [n1 Hn1].
    destruct (word_index_place X_train w2 c2 H2 ltac:(lia)) as [n2 Hn2].
    pose proof (sorted_lookup _ (Z.to_nat (c1 - 2)) (Z.to_nat (c2 - 2)) _ _
                  (sort_desc_sorted _) ltac:(lia) Hn1 Hn2) as Hle.
    simpl in Hle.
    assert (Hin : ∀ k n i, sort_desc (count_texts X_train []) !! i = Some (k, n) →
                    (k, n) ∈ word_counts (word_tokenizer X_train)).
    { intros k n i Hi. rewrite word_counts_fit, <- sort_desc_Permutation.
      by eapply list_elem_of_lookup_2. }
    rewrite <- (word_counts_entry X_train w1 n1 (Hin _ _ _ Hn1)).
    by rewrite <- (word_counts_entry X_train w2 n2 (Hin _ _ _ Hn2)).
Qed.

Lemma indices_follow_the_counts_witness :
  occurrences "cat" (lowered_words [["The"; "cat"]; ["the"; "dog"]])
    ≤ occurrences "the" (lowered_words [["The"; "cat"]; ["the"; "dog"]]).
Proof.
  refine (proj2 (proj2 (indices_follow_the_counts [["The"; "cat"]; ["the"; "dog"]]))
            "the" "cat" 2 3 _ _ _ _).
  - vm_compute. reflexivity.
  - vm_compute. reflexivity.
  - lia.
  - lia.
Defined.

(** [texts_to_sequences] of a fitted tokenizer never fails and never drops
    a word: there is one sequence for every text, as long as the text, and
    every ID lies between 1 and [vocab_size - 1], so no ID is the padding
    value 0.  A word gets the ID 1 of the OOV token exactly when its
    lowercase does not occur in the training texts. *)
Theorem every_word_gets_an_id :
  ∀ X_train : list (list string),
    let tk := word_tokenizer X_train in
    (∀ texts : list (list string),
       ∃ seqs : list (list Z),
         texts_to_sequences tk texts = Some seqs
         ∧ Forall2 (fun text ids =>
                      length ids = length text
                      ∧ Forall (fun i => 1 ≤ i < vocab_size tk) ids)
                   texts seqs)
    ∧ (∀ w : string,
         texts_to_sequences tk [[w]] = Some [[1]]
         ↔ lower w ∉ lowered_words X_train).
Proof.
  intros X_train tk. subst tk. split.
  - intros texts. eexists. split; [apply texts_to_sequences_total|].
    apply Forall2_fmap_r, Forall_Forall2_diag, Forall_forall. intros text _.
    unfold compose, text_seq. rewrite !length_fmap. split; [done|].
    apply Forall_fmap, Forall_fmap, Forall_forall. intros w _. simpl.
    pose proof (vocab_size_ge_2 X_train).
    destruct (word_id_cases X_train (lower w)) as [(c & Hc & ->) | [_ ->]]; simpl;
      [|lia].
    destruct (word_index_cases X_train _ _ Hc) as [[-> _] | [Hr _]]; lia.
  - intros w. rewrite lowered_words_elem.
    destruct (encode_word_cases X_train w) as [(c & Hc & ->) | [Hn ->]].
    + destruct (word_index_cases X_train _ _ Hc) as [[_ Hoov] | (Hr & _ & Hin)].
      * by apply lower_neq_OOV in Hoov.
      * split; [|done]. intros [= ->]. lia.
    + split; [|done]. intros _ Hin.
      destruct (dict_enumerate_mem 1 (sorted_voc "<OOV>" (count_texts X_train []))
                  (lower w) (voc_NoDup X_train)) as [c Hc].
      { apply sorted_voc_words. by right. }
      rewrite word_index_fit in Hn. congruence.
Qed.

(** [vocab_size] is the number of different lowered words of the training
    texts plus 2: one for the OOV token and one for the padding value. *)
Theorem vocab_size_counts_the_lowered_words :
  ∀ X_train : list (list string),
    vocab_size (word_tokenizer X_train)
    = Z.of_nat (length (remove_dups (lowered_words X_train))) + 2.
Proof.
  intros X_train. rewrite vocab_size_fit. unfold sorted_voc. simpl.
  rewrite length_fmap, sort_desc_Permutation.
  assert (Hperm : (count_texts X_train []).*1 ≡ₚ remove_dups (lowered_words X_train)).
  { apply NoDup_Permutation.
    - apply count_texts_NoDup. constructor.
    - apply NoDup_remove_dups.
    - intros k. by rewrite elem_of_remove_dups, lowered_words_elem. }
  rewrite <- Hperm, length_fmap. lia.
Qed.

(** Fitting in two calls is fitting once: [fit_on_texts] on [texts1] and
    then on [texts2] leaves the tokenizer as one call on [texts1 ++ texts2]
    does, whatever the tokenizer held before. *)
Theorem fit_on_texts_twice :
  ∀ (tk : Tokenizer) (texts1 texts2 : list (list string)),
    fit_on_texts (fit_on_texts tk texts1) texts2 = fit_on_texts tk (texts1 ++ texts2).
Proof.
  intros tk texts1 texts2. unfold fit_on_texts. simpl.
  unfold count_texts. by rewrite fold_left_app.
Qed.

End tokenizer_claims.

(** ** tokenization_and_mapping.py: tag IDs, encoding, the shapes *)

Section encoding_facts.

Import PyStr PyDict Keras Tokenization.
Import OrderedTypeEx.

Lemma unique_tags_sorted (y_train : list (list string)) :
  StronglySorted String_as_OT.lt (unique_tags y_train).
Proof. apply fold_insert_uniq. constructor. Qed.

Lemma sorted_strings_lookup (l : list string) (i j : nat) (a b : string) :
  StronglySorted String_as_OT.lt l →
  (i < j)%nat → l !! i = Some a → l !! j = Some b → String_as_OT.lt a b.
Proof.
  intros Hs. revert i j. induction Hs as [|y l Hl IH Hy]; intros i j Hij Hi Hj.
  - by rewrite lookup_nil in Hi.
  - destruct j as [|j]; [lia|]. simpl in Hj. destruct i as [|i]; simpl in Hi.
    + injection Hi as <-. rewrite Forall_forall in Hy.
      apply Hy. by eapply list_elem_of_lookup_2.
    + apply (IH i j); [lia|done..].
Qed.

Lemma lt_irrefl (a : string) : ¬ String_as_OT.lt a a.
Proof. intros Hlt. by apply (String_as_OT.lt_not_eq a a Hlt). Qed.

Lemma tag2id_domain (y_train : list (list string)) :
  ∀ tag : string,
    is_Some (tag2id y_train !! tag) ↔ ∃ tags, tags ∈ y_train ∧ tag ∈ tags.
Proof.
  pose proof (unique_tags_NoDup y_train) as Hnd.
  intros tag. rewrite <- elem_of_concat, <- unique_tags_elem. split.
  - intros [i Hi]. apply dict_enumerate_lookup in Hi as (n & Hn & _); [|done].
    by eapply list_elem_of_lookup_2.
  - intros Hin. by apply dict_enumerate_mem.
Qed.

(** The tag dictionaries of the script.  [tag2id] has an ID for exactly
    the tags of the training data, the IDs are 0, ..., [num_tags - 1], and
    [id2tag] is the inverse.  The IDs are the ranks of the tags in their
    order as strings: the smaller tag has the smaller ID.  So, when there
    is a tag at all, one tag has the ID 0, the value with which the tag
    rows are padded. *)
Theorem tag_ids_are_ranks :
  ∀ y_train : list (list string),
    (∀ (tag : string) (i : Z),
       tag2id y_train !! tag = Some i ↔ id2tag y_train !! i = Some tag)
    ∧ (∀ tag : string,
         is_Some (tag2id y_train !! tag) ↔ ∃ tags, tags ∈ y_train ∧ tag ∈ tags)
    ∧ (∀ i : Z, is_Some (id2tag y_train !! i) ↔ 0 ≤ i < num_tags y_train)
    ∧ (∀ (t1 t2 : string) (i1 i2 : Z),
         tag2id y_train !! t1 = Some i1 → tag2id y_train !! t2 = Some i2 →
         (i1 < i2 ↔ String.compare t1 t2 = Lt))
    ∧ (∀ tags tag, tags ∈ y_train → tag ∈ tags →
         ∃ first : string, tag2id y_train !! first = Some 0).
Proof.
  intros y_train.
  pose proof (unique_tags_NoDup y_train) as Hnd.
  pose proof (unique_tags_sorted y_train) as Hsorted.
  assert (Hrank : ∀ t i, tag2id y_train !! t = Some i →
            ∃ n : nat, unique_tags y_train !! n = Some t ∧ i = Z.of_nat n).
  { intros t i Ht. apply dict_enumerate_lookup in Ht as (n & Hn & ->); [|done].
    exists n. split; [done|lia]. }
  split_and!.
  - intros tag i. symmetry. unfold id2tag. apply dict_invert_lookup.
    intros k1 k2 c. by apply dict_enumerate_inj.
  - intros tag. rewrite <- elem_of_concat, <- unique_tags_elem. split.
    + intros [i (n & Hn & _)%Hrank]. by eapply list_elem_of_lookup_2.
    + intros Hin. by apply dict_enumerate_mem.
  - intros i. rewrite <- not_eq_None_Some, id2tag_None. lia.
  - intros t1 t2 i1 i2 (n1 & Hn1 & ->)%Hrank (n2 & Hn2 & ->)%Hrank.
    rewrite (String_as_OT.cmp_lt t1 t2). split.
    + intros Hlt.
      apply (sorted_strings_lookup (unique_tags y_train) n1 n2); [done|lia|done..].
    + intros Hlt. destruct (decide (n1 < n2)%nat) as [|Hge]; [lia|].
      exfalso. destruct (decide (n1 = n2)) as [->|Hne].
      * assert (t1 = t2) as -> by congruence. by apply (lt_irrefl t2).
      * apply (lt_irrefl t1). apply (String_as_OT.lt_trans t1 t2 t1); [done|].
        apply (sorted_strings_lookup (unique_tags y_train) n2 n1); [done|lia|done..].
  - intros tags tag Htags Htag.
    assert (Hin : tag ∈ unique_tags y_train).
    { apply unique_tags_elem, elem_of_concat. by exists tags. }
    destruct (unique_tags y_train) as [|first l] eqn:Hl;
      [by apply elem_of_nil in Hin|].
    exists first. unfold tag2id. rewrite Hl. apply dict_enumerate_lookup; [done|].
    by exists 0%nat.
Qed.

Lemma tag_ids_are_ranks_witness :
  ∃ first : string, tag2id [["NOUN"; "DET"]; ["VERB"]] !! first = Some 0.
Proof.
  refine (proj2 (proj2 (proj2 (proj2 (tag_ids_are_ranks [["NOUN"; "DET"]; ["VERB"]]))))
            ["NOUN"; "DET"] "NOUN" _ _).
  - apply elem_of_cons. left. reflexivity.
  - apply elem_of_cons. left. reflexivity.
Defined.

Lemma Forall2_fmap_length {A B : Type} (f : list A → list B) (ls : list (list A)) :
  (∀ l, length (f l) = length l) →
  Forall2 (fun l ids => length ids = length l) ls (f <$> ls).
Proof.
  intros Hf. apply Forall2_fmap_r, Forall_Forall2_diag, Forall_forall.
  intros l _. apply Hf.
Qed.

(** [encode_sentences_and_tags] with the fitted tokenizer and the tag
    dictionary of the training data raises exactly when a tag of [y] does
    not occur in the training data; a word that does not occur there is no
    error.  When it returns, it returns one ID sequence for every word
    list of [X] and one for every tag list of [y], each as long as the list
    it encodes. *)
Theorem encoding_raises_exactly_on_an_unknown_tag :
  ∀ (X_train y_train X y : list (list string)),
    let encoded :=
      encode_sentences_and_tags X y (word_tokenizer X_train) (tag2id y_train) in
    (encoded = None
     ↔ ∃ tags tag, tags ∈ y ∧ tag ∈ tags
                   ∧ ¬ ∃ ts, ts ∈ y_train ∧ tag ∈ ts)
    ∧ (∀ X_encoded y_encoded,
         encoded = Some (X_encoded, y_encoded) →
         Forall2 (fun words ids => length ids = length words) X X_encoded
         ∧ Forall2 (fun tags ids => length ids = length tags) y y_encoded).
Proof.
  intros X_train y_train X y encoded. subst encoded.
  unfold encode_sentences_and_tags. rewrite texts_to_sequences_total.
  cbn [mbind option_bind].
  pose proof (tag2id_domain y_train) as Hdom.
  split.
  - destruct (mapM (fun tags => mapM (fun tag => tag2id y_train !! tag) tags) y)
      as [ye|] eqn:Hy; cbn [mbind option_bind].
    + split; [done|]. intros (tags & tag & Htags & Htag & Hunk). exfalso.
      apply mapM_Some_1 in Hy.
      apply list_elem_of_lookup in Htags as [n Hn].
      destruct (Forall2_lookup_l _ _ _ _ _ Hy Hn) as (ids & _ & Hids).
      apply mapM_Some_1 in Hids.
      apply list_elem_of_lookup in Htag as [j Hj].
      destruct (Forall2_lookup_l _ _ _ _ _ Hids Hj) as (i & _ & Hi).
      apply Hunk, Hdom. by exists i.
    + split; [|done]. intros _.
      apply mapM_None_1, Exists_exists in Hy as (tags & Htags & Hnone).
      apply mapM_None_1, Exists_exists in Hnone as (tag & Htag & Hnone).
      exists tags, tag. split_and!; [done..|].
      intros Hknown%Hdom. rewrite Hnone in Hknown. by destruct Hknown.
  - intros Xe ye.
    destruct (mapM (fun tags => mapM (fun tag => tag2id y_train !! tag) tags) y)
      as [ye'|] eqn:Hy; cbn [mbind option_bind]; [|done].
    intros [= <- <-]. split.
    + apply Forall2_fmap_length. intros l. unfold text_seq. by rewrite !length_fmap.
    + apply mapM_Some_1 in Hy. eapply Forall2_impl; [exact Hy|].
      intros tags ids Hids%mapM_Some_1. simpl. symmetry. by eapply Forall2_length.
Qed.

End encoding_facts.

Section pipeline_shapes.

Import PyStr PyDict Keras Tokenization.

Lemma encoding_raises_exactly_on_an_unknown_tag_witness :
  Forall2 (fun words ids => length ids = length words)
    [["a"; "dog"]] [[2; 1]]
  ∧ Forall2 (fun tags ids => length ids = length tags)
      [["DET"; "DET"]] [[0; 0]].
Proof.
  apply (proj2 (encoding_raises_exactly_on_an_unknown_tag
                  [["a"; "cat"]] [["DET"; "NOUN"]] [["a"; "dog"]] [["DET"; "DET"]])
           [[2; 1]] [[0; 0]]).
  vm_compute. reflexivity.
Defined.

Lemma padded_row_length (max_len : nat) (s : list Z) :
  length (take max_len s ++ replicate (max_len - length s) 0) = max_len.
Proof. rewrite length_app, length_take, length_replicate. lia. Qed.

Lemma split_words_tags_known (train_data : list (list token)) :
  Forall (Forall (fun tag => ∃ ts, ts ∈ (split_words_tags train_data).2 ∧ tag ∈ ts))
    (split_words_tags train_data).2.
Proof.
  apply Forall_forall. intros tags Htags. apply Forall_forall. intros tag Htag.
  by exists tags.
Qed.

(** Steps 5 to 7 of the script on the training data itself: encoding
    never raises, for no tag of the training data is unknown; the ID
    sequences of a sentence are as long as the sentence; padding never
    raises; and the two padded matrices have one row for every sentence,
    each of [MAX_LEN] elements.  So the assertion of step 7 on the training
    matrices holds, whatever the training data. *)
Theorem training_matrices_have_one_row_per_sentence :
  ∀ train_data : list (list token),
    let X_train := (split_words_tags train_data).1 in
    let y_train := (split_words_tags train_data).2 in
    ∃ X_train_ids y_train_ids X_train_padded y_train_padded : list (list Z),
      encode_sentences_and_tags X_train y_train (word_tokenizer X_train) (tag2id y_train)
        = Some (X_train_ids, y_train_ids)
      ∧ pad MAX_LEN X_train_ids = Some X_train_padded
      ∧ pad MAX_LEN y_train_ids = Some y_train_padded
      ∧ Forall2 (fun sent ids => length ids = length sent) train_data X_train_ids
      ∧ Forall2 (fun sent ids => length ids = length sent) train_data y_train_ids
      ∧ length X_train_padded = length train_data
      ∧ length y_train_padded = length train_data
      ∧ Forall (fun row => length row = MAX_LEN) X_train_padded
      ∧ Forall (fun row => length row = MAX_LEN) y_train_padded.
Proof.
  intros train_data X_train y_train.
  assert (Hy : mapM (fun tags => mapM (fun tag => tag2id y_train !! tag) tags) y_train
               = Some ((fun tags : list string =>
                          (fun tag => default 0 (tag2id y_train !! tag)) <$> tags)
                         <$> y_train)).
  { apply mapM_total. eapply Forall_impl; [apply split_words_tags_known|].
    intros tags Htags. simpl. by apply tags_encoded. }
  do 4 eexists. split_and!.
  - unfold encode_sentences_and_tags. rewrite texts_to_sequences_total, Hy.
    reflexivity.
  - apply pad_total.
  - apply pad_total.
  - subst X_train. unfold split_words_tags. simpl. rewrite <- list_fmap_compose.
    apply Forall2_fmap_length. intros sent. unfold compose, text_seq.
    by rewrite !length_fmap.
  - subst y_train. unfold split_words_tags. simpl. rewrite <- list_fmap_compose.
    apply Forall2_fmap_length. intros sent. unfold compose. by rewrite !length_fmap.
  - subst X_train. unfold split_words_tags. simpl. by rewrite !length_fmap.
  - subst y_train. unfold split_words_tags. simpl. by rewrite !length_fmap.
  - apply Forall_fmap, Forall_forall. intros s _. apply padded_row_length.
  - apply Forall_fmap, Forall_forall. intros s _. apply padded_row_length.
Qed.

End pipeline_shapes.

(** ** MyTagger.py and Mapper.py: padding and the nested mappings *)

Section tagger_facts.

Import Keras.




End tagger_facts.

Section mapping_facts.

Import PyDict Mapper.

Lemma map_ids_map_pos (ids : list Z) (targets : list string) :
  map_pos ids = Some targets → map_ids targets = Some ids.
Proof.
  unfold map_ids, map_pos. rewrite !mapM_Some.
  induction 1 as [|i t ids targets Hit _ IH]; constructor; [|exact IH].
  by apply id_mapping_lookup, pos_mapping_lookup.
Qed.

Lemma id_mapping_None (tag : string) :
  id_mapping !! tag = None ↔ tag ∉ id_items.*1.
Proof.
  unfold id_mapping, dict_of_pairs. rewrite <- not_elem_of_list_to_map.
  by rewrite fmap_reverse, elem_of_reverse.
Qed.

(** [mapping] and [unmapping] on a whole list of sentences are inverse to
    each other, and they keep the shape: one list of IDs for every list of
    tags, of the same length.  [mapping] raises exactly when some tag is
    not one of the 18 names of the dictionary, [unmapping] exactly when
    some ID is below 1 or above 18, as the padding value 0 is. *)
Theorem mapping_and_unmapping_are_inverse :
  (∀ (targets : list (list string)) (mapped : list (list Z)),
     mapping targets = Some mapped ↔ unmapping mapped = Some targets)
  ∧ (∀ (targets : list (list string)) (mapped : list (list Z)),
     mapping targets = Some mapped →
     Forall2 (fun tags ids => length ids = length tags) targets mapped)
  ∧ (∀ targets : list (list string),
     mapping targets = None
     ↔ ∃ tags tag, tags ∈ targets ∧ tag ∈ tags
                   ∧ tag ∉ ["ADJ"; "ADP"; "ADV"; "AUX"; "CCONJ"; "DET"; "INTJ";
                            "NOUN"; "NUM"; "PART"; "PRON"; "PROPN"; "PUNCT";
                            "SCONJ"; "SYM"; "VERB"; "X"; "UNK"])
  ∧ (∀ mapped : list (list Z),
     unmapping mapped = None
     ↔ ∃ ids i, ids ∈ mapped ∧ i ∈ ids ∧ (i < 1 ∨ 18 < i)).
Proof.
  split_and!.
  - intros targets mapped. unfold mapping, unmapping. rewrite !mapM_Some. split.
    + induction 1 as [|tags ids targets mapped H _ IH]; constructor; [|exact IH].
      by apply map_pos_map_ids.
    + induction 1 as [|ids tags mapped targets H _ IH]; constructor; [|exact IH].
      by apply map_ids_map_pos.
  - intros targets mapped Hm%mapM_Some_1. eapply Forall2_impl; [exact Hm|].
    intros tags ids Hids%mapM_Some_1. simpl. symmetry. by eapply Forall2_length.
  - intros targets. unfold mapping, map_ids. rewrite mapM_None, Exists_exists.
    split.
    + intros (tags & Htags & (tag & Htag & Hnone%id_mapping_None)%mapM_None_1%Exists_exists).
      by exists tags, tag.
    + intros (tags & tag & Htags & Htag & Hnot). exists tags. split; [done|].
      apply mapM_None_2, Exists_exists. exists tag. split; [done|].
      by apply id_mapping_None.
  - intros mapped. unfold unmapping, map_pos. rewrite mapM_None, Exists_exists.
    split.
    + intros (ids & Hids & (i & Hi & Hnone%pos_mapping_None)%mapM_None_1%Exists_exists).
      by exists ids, i.
    + intros (ids & i & Hids & Hi & Hout). exists ids. split; [done|].
      apply mapM_None_2, Exists_exists. exists i. split; [done|].
      by apply pos_mapping_None.
Qed.

Lemma mapping_and_unmapping_are_inverse_witness :
  Forall2 (fun tags ids => length ids = length tags)
    [["DET"; "NOUN"]; ["VERB"]] [[6; 8]; [16]].
Proof.
  apply (proj1 (proj2 mapping_and_unmapping_are_inverse)
           [["DET"; "NOUN"]; ["VERB"]] [[6; 8]; [16]]).
  vm_compute. reflexivity.
Defined.

End mapping_facts.

(** ** UDReader.py and MyTagger.py: from the corpus to the labels *)

Section reader_and_predict.

Import PyStr UDReader Predict.

(** the inner loop on a sentence of fewer than 128 token lines *)
Lemma sentence_tokens_pos_short (sentence : list conll_token) :
  (length sentence < 128)%nat →
  sentence_tokens_pos sentence
  = (form <$> plain_tokens sentence, upos <$> plain_tokens sentence).
Proof.
  intros Hshort. unfold sentence_tokens_pos, plain_tokens.
  destruct (Z.ltb_spec (Z.of_nat (length sentence)) 128) as [_|Hge]; [|lia].
  assert (Hgen : ∀ (l : list conll_token) (acc : list string * list string),
            fold_left
              (fun acc token =>
                 if negb (is_multiword token || is_empty_node token)
                 then (acc.1 ++ [form token], acc.2 ++ [upos token]) else acc)
              l acc
            = (acc.1 ++ (form <$> List.filter
                           (fun token => negb (is_multiword token || is_empty_node token)) l),
               acc.2 ++ (upos <$> List.filter
                           (fun token => negb (is_multiword token || is_empty_node token)) l))).
  { induction l as [|t l IH]; intros [a b]; simpl.
    - by rewrite !app_nil_r.
    - rewrite IH. destruct (negb (is_multiword t || is_empty_node t)); simpl.
      + by rewrite <- !app_assoc.
      + done. }
  apply (Hgen sentence ([], [])).
Qed.

Lemma remove_multi_empty_fmap (corpus : list (list conll_token)) :
  remove_multi_empty corpus
  = ((fun sentence => join " " (sentence_tokens_pos sentence).1) <$> corpus,
     (fun sentence => (sentence_tokens_pos sentence).2) <$> corpus).
Proof.
  unfold remove_multi_empty.
  assert (Hgen : ∀ (l : list (list conll_token)) (acc : list string * list (list string)),
            fold_left
              (fun acc sentence =>
                 let tp := sentence_tokens_pos sentence in
                 (acc.1 ++ [join " " tp.1], acc.2 ++ [tp.2]))
              l acc
            = (acc.1 ++ ((fun sentence => join " " (sentence_tokens_pos sentence).1) <$> l),
               acc.2 ++ ((fun sentence => (sentence_tokens_pos sentence).2) <$> l))).
  { induction l as [|s l IH]; intros [a b]; simpl.
    - by rewrite !app_nil_r.
    - rewrite IH. simpl. by rewrite <- !app_assoc. }
  apply (Hgen corpus ([], [])).
Qed.


Lemma words_cons (c : ascii) (s : string) :
  words (String c s)
  = if isspace c then words s
    else match s with
         | EmptyString => [String c EmptyString]
         | String d _ =>
             if isspace d then String c EmptyString :: words s
             else match words s with
                  | w :: ws => String c w :: ws
                  | [] => [String c EmptyString]
                  end
         end.
Proof. reflexivity. Qed.

Lemma words_no_space (w : string) :
  w ≠ EmptyString → no_space w = true → words w = [w].
Proof.
  induction w as [|c w IH]; [done|]. intros _.
  simpl no_space. intros [Hc Hw]%andb_true_iff. apply negb_true_iff in Hc.
  rewrite words_cons, Hc. destruct w as [|d w']; [done|].
  pose proof Hw as Hw2. simpl in Hw2.
  apply andb_true_iff in Hw2 as [Hd _]. apply negb_true_iff in Hd.
  rewrite Hd. by rewrite IH.
Qed.

Lemma words_cons_space (w rest : string) :
  w ≠ EmptyString → no_space w = true →
  words (w +:+ String " " rest) = w :: words rest.
Proof.
  induction w as [|c w IH]; [done|]. intros _.
  simpl no_space. intros [Hc Hw]%andb_true_iff. apply negb_true_iff in Hc.
  change (String c w +:+ String " " rest) with (String c (w +:+ String " " rest)).
  rewrite words_cons, Hc. destruct w as [|d w'].
  - change (EmptyString +:+ String " " rest) with (String " " rest).
    change (isspace " ") with true. cbv iota.
    rewrite (words_cons " " rest). by change (isspace " ") with true.
  - pose proof Hw as Hw2. simpl in Hw2.
    apply andb_true_iff in Hw2 as [Hd _]. apply negb_true_iff in Hd.
    specialize (IH ltac:(done) Hw).
    change (String d w' +:+ String " " rest)
      with (String d (w' +:+ String " " rest)) in *.
    cbv iota. by rewrite Hd, IH.
Qed.

(** [" ".join(forms).split()] gives the forms back when no form is empty
    and no form holds white space. *)
Lemma words_join (forms : list string) :
  Forall (fun w => w ≠ EmptyString ∧ no_space w = true) forms →
  words (join " " forms) = forms.
Proof.
  induction 1 as [|w forms [Hw Hns] Hall IH]; [done|].
  destruct forms as [|w' forms'].
  - simpl. by apply words_no_space.
  - change (join " " (w :: w' :: forms'))
      with (w +:+ String " " (join " " (w' :: forms'))).
    rewrite words_cons_space by done. by rewrite IH.
Qed.

Lemma Forall2_fmap_change {A B C D : Type} (f : A → B) (g : A → C)
    (P : B → D → Prop) (Q : A → Prop) (R : C → D → Prop) (l : list A) (k : list D) :
  Forall2 P (f <$> l) k → Forall Q l →
  (∀ x y, Q x → P (f x) y → R (g x) y) →
  Forall2 R (g <$> l) k.
Proof.
  intros HP HQ Himp. revert k HP.
  induction HQ as [|x l Hx _ IH]; intros k HP; simpl in *.
  - inversion HP. constructor.
  - inversion HP as [|? y ? k' Hxy Hrest]; subst. constructor; [by apply Himp|].
    by apply IH.
Qed.

Context {scores : Type} (argmax : scores → Z).

Lemma results_of_cut_lengths (predictions : list (list scores)) (seq_length : list nat) :
  length predictions = length seq_length →
  Forall (fun pred => length pred = 128%nat) predictions →
  Forall2 (fun n labels => length labels = (n `min` 128)%nat)
    seq_length (results_of argmax (cut predictions seq_length)).
Proof.
  unfold results_of, cut. revert seq_length.
  induction predictions as [|pred predictions IH]; intros [|n seq_length] Hlen Hrows;
    simpl in *; try done; try (by constructor).
  inversion Hrows as [|? ? Hpred Hrest]; subst.
  constructor; [|apply IH; [lia|done]].
  rewrite length_fmap, length_take. lia.
Qed.

(** The labels of [predict] and of [predict_conllu], for predictions with
    one row of 128 positions per input.  [predict] returns for every input
    string as many labels as the string has words (128 at most);
    [predict_conllu] returns for every sentence of the corpus as many
    labels as the sentence has token lines (128 at most), multiword and
    empty-node lines included.  For the inputs that [remove_multi_empty]
    makes from sentences of fewer than 128 token lines whose plain tokens
    have forms without white space, [predict] so returns exactly one label
    for every tag of [targets]. *)
Theorem labels_per_sentence :
  ∀ (predictions : list (list scores)) (corpus : list (list conll_token)),
    length predictions = length corpus →
    Forall (fun pred => length pred = 128%nat) predictions →
    (∀ test_inputs : list string,
       length test_inputs = length corpus →
       Forall2 (fun seq labels => length labels = (length (words seq) `min` 128)%nat)
         test_inputs (predict argmax predictions test_inputs))
    ∧ Forall2 (fun sentence labels =>
                 length labels = (length sentence `min` 128)%nat)
        corpus (predict_conllu argmax predictions corpus)
    ∧ (Forall (fun sentence =>
                 (length sentence < 128)%nat
                 ∧ Forall (fun t => form t ≠ EmptyString ∧ no_space (form t) = true)
                     (plain_tokens sentence))
              corpus →
       Forall2 (fun tags labels => length labels = length tags)
         (remove_multi_empty corpus).2
         (predict argmax predictions (remove_multi_empty corpus).1)).
Proof.
  intros predictions corpus Hlen Hrows.
  assert (Hpredict : ∀ test_inputs : list string,
            length test_inputs = length corpus →
            Forall2 (fun seq labels =>
                       length labels = (length (words seq) `min` 128)%nat)
              test_inputs (predict argmax predictions test_inputs)).
  { intros test_inputs Hin. unfold predict.
    apply (Forall2_fmap_l (fun seq => length (words seq))
             (fun n labels => length labels = (n `min` 128)%nat)).
    apply results_of_cut_lengths; [rewrite length_fmap; lia | done]. }
  split_and!; [exact Hpredict | |].
  - unfold predict_conllu.
    apply (Forall2_fmap_l (fun seq : list conll_token => length seq)
             (fun n labels => length labels = (n `min` 128)%nat)).
    apply results_of_cut_lengths; [by rewrite length_fmap | done].
  - intros Hcorpus. rewrite remove_multi_empty_fmap. simpl.
    specialize (Hpredict
      ((fun sentence => join " " (sentence_tokens_pos sentence).1) <$> corpus)
      ltac:(by rewrite length_fmap)).
    eapply Forall2_fmap_change; [exact Hpredict | exact Hcorpus |].
    intros sentence labels [Hshort Hforms] ->. cbv beta.
    rewrite (sentence_tokens_pos_short sentence Hshort). simpl.
    rewrite words_join by (by apply Forall_fmap).
    rewrite !length_fmap.
    assert (length (plain_tokens sentence) ≤ length sentence)%nat; [|lia].
    unfold plain_tokens. clear. induction sentence as [|t l IH]; simpl; [lia|].
    destruct (negb _); simpl; lia.
Qed.

End reader_and_predict.

Section predict_witness.

Import PyStr UDReader Predict.

Lemma labels_per_sentence_witness :
  Forall2 (fun sentence labels => length labels = (length sentence `min` 128)%nat)
    [[mkToken "1-2" "don't" "_"; mkToken "1" "do" "AUX"; mkToken "2" "n't" "PART"]]
    (predict_conllu (fun _ : list Z => 0)
       [replicate 128 []]
       [[mkToken "1-2" "don't" "_"; mkToken "1" "do" "AUX"; mkToken "2" "n't" "PART"]]).
Proof.
  refine (proj1 (proj2 (labels_per_sentence (fun _ : list Z => 0)
            [replicate 128 []]
            [[mkToken "1-2" "don't" "_"; mkToken "1" "do" "AUX";
              mkToken "2" "n't" "PART"]] _ _))).
  - reflexivity.
  - constructor; [|constructor]. apply length_replicate.
Defined.

End predict_witness.

(** ** conllu_processor.py: the three files *)

Section three_files.

Import PyStr CoNLLU CoNLLUStats.




End three_files.
